(** * ShipAny documentation converter ([batch_convert_docs.py])

  A shallow embedding of [ShipAnyDocsConverter] and the properties of
  its fetch / extract / render / write pipeline and of its index.

  Conventions of the embedding.
  - A Python [str] is a [string] holding the UTF-8 bytes of the text;
    the source file is UTF-8, so its literals are copied as they are
    and [open(..., encoding='utf-8')] stores those bytes unchanged.
  - A Python [dict] literal with distinct keys, walked with [.items()],
    is the list of its (key, value) pairs in insertion order.
  - The file system is a finite map from paths to file contents.
  - What the program takes from other packages and cannot be read in
    its own source (the URL joiner, the HTML parser and serialiser of
    BeautifulSoup, the html2text renderer) is a field of the record
    [library]; the server and the refusals of the operating system
    are the record [world].  Every statement holds for all of them. *)

From stdpp Require Import gmap strings list fin_maps.
From Stdlib Require Import ZArith Ascii String.

Set Warnings "-register-all,-clear-no-such-hyp".

Local Open Scope Z_scope.
Local Open Scope nat_scope.

(** ** Python string methods used by the program *)

Module PyStr.

Definition is_upper (c : ascii) : bool :=
  let n := nat_of_ascii c in (65 <=? n) && (n <=? 90).

Definition is_lower (c : ascii) : bool :=
  let n := nat_of_ascii c in (97 <=? n) && (n <=? 122).

(** Only the ASCII letters are cased here.  Every other byte, the
    bytes of a CJK character among them, is left alone, as CPython
    leaves an uncased character alone. *)
Definition is_cased (c : ascii) : bool := is_upper c || is_lower c.

Definition to_upper (c : ascii) : ascii :=
  if is_lower c then ascii_of_nat (nat_of_ascii c - 32) else c.

Definition to_lower (c : ascii) : ascii :=
  if is_upper c then ascii_of_nat (nat_of_ascii c + 32) else c.

(** [str.title()]: CPython's [do_title] keeps one flag,
    [previous_is_cased]; a character after a cased one is lowered,
    any other is title-cased. *)
Fixpoint title_from (previous_is_cased : bool) (s : string) : string :=
  match s with
  | EmptyString => EmptyString
  | String c s' =>
      String (if previous_is_cased then to_lower c else to_upper c)
             (title_from (is_cased c) s')
  end.

Definition title (s : string) : string := title_from false s.

(** [s.replace(old, new)] for a one-character [old], the only form
    the program uses. *)
Fixpoint replace (old : ascii) (new : string) (s : string) : string :=
  match s with
  | EmptyString => EmptyString
  | String c s' =>
      if Ascii.eqb c old then new +:+ replace old new s'
      else String c (replace old new s')
  end.

(** [s.split(sep)] for a one-character [sep]; the result is never
    empty. *)
Fixpoint split (sep : ascii) (s : string) : list string :=
  match s with
  | EmptyString => [EmptyString]
  | String c s' =>
      if Ascii.eqb c sep then EmptyString :: split sep s'
      else match split sep s' with
           | [] => [String c EmptyString]
           | w :: ws => String c w :: ws
           end
  end.

(** [c in s] for a one-character [c]. *)
Fixpoint contains (c : ascii) (s : string) : bool :=
  match s with
  | EmptyString => false
  | String d s' => Ascii.eqb d c || contains c s'
  end.

(** [l[0]] and [l[-1]] on the list that [split] returns. *)
Definition first (l : list string) : string := List.hd EmptyString l.
Definition final (l : list string) : string := List.last l EmptyString.

(** The UTF-8 bytes of a code point and of a text, as the [utf-8]
    codec writes them. *)
Definition utf8_char (c : N) : string :=
  let byte (n : N) := String (ascii_of_N n) EmptyString in
  if (c <? 128)%N then byte c
  else if (c <? 2048)%N then
    byte (192 + c / 64)%N +:+ byte (128 + c mod 64)%N
  else if (c <? 65536)%N then
    byte (224 + c / 4096)%N +:+ byte (128 + (c / 64) mod 64)%N
      +:+ byte (128 + c mod 64)%N
  else
    byte (240 + c / 262144)%N +:+ byte (128 + (c / 4096) mod 64)%N
      +:+ byte (128 + (c / 64) mod 64)%N +:+ byte (128 + c mod 64)%N.

Fixpoint utf8_encode (text : list N) : string :=
  match text with
  | [] => EmptyString
  | c :: text' => utf8_char c +:+ utf8_encode text'
  end.

(** The line feed, written [\n] in the source. *)
Definition LF : string := String "010" EmptyString.

(** [s.splitlines()] on text whose only line break is the line feed:
    a trailing line feed does not open a further line. *)
Definition lines (s : string) : list string :=
  match s with
  | EmptyString => []
  | _ =>
      let parts := split "010" s in
      if String.eqb (final parts) EmptyString then removelast parts else parts
  end.

End PyStr.

(** ** The page catalogue: [get_all_pages] *)

Definition get_all_pages : list (string * string) :=
[ ("get-started", "get-started");
  ("guide/prerequisites", "guide/prerequisites");
  ("guide/whats-new", "guide/whats-new");
  ("guide/faq", "guide/faq");
  ("features/database", "features/database");
  ("features/oauth", "features/oauth");
  ("features/analytics", "features/analytics");
  ("features/i18n", "features/i18n");
  ("features/storage", "features/storage");
  ("features/seo", "features/seo");
  ("features/blog", "features/blog");
  ("features/email", "features/email");
  ("features/email/resend", "features/email/resend");
  ("payment/stripe", "payment/stripe");
  ("payment/creem", "payment/creem");
  ("feedback", "feedback");
  ("affiliate", "affiliate");
  ("emails", "emails");
  ("user-console/user-console", "user-console/user-console");
  ("user-console/new-table", "user-console/new-table");
  ("user-console/api-keys", "user-console/api-keys");
  ("user-console/credits", "user-console/credits");
  ("admin-system/admin-config", "admin-system/admin-config");
  ("admin-system/admin-layout", "admin-system/admin-layout");
  ("admin-system/add-table", "admin-system/add-table");
  ("ai-integrations/image-generation", "ai-integrations/image-generation");
  ("ai-integrations/video-generation", "ai-integrations/video-generation");
  ("ai-integrations/text-generation", "ai-integrations/text-generation");
  ("ai-integrations/chat-completions", "ai-integrations/chat-completions");
  ("ai-integrations/text-to-speech", "ai-integrations/text-to-speech");
  ("components/header", "components/header");
  ("components/hero", "components/hero");
  ("components/feature", "components/feature");
  ("components/showcase", "components/showcase");
  ("components/pricing", "components/pricing");
  ("components/testimonial", "components/testimonial");
  ("components/faq", "components/faq");
  ("components/cta", "components/cta");
  ("components/footer", "components/footer");
  ("deploy/deploy-to-vercel", "deploy/deploy-to-vercel");
  ("deploy/deploy-to-cloudflare", "deploy/deploy-to-cloudflare");
  ("deploy/deploy-with-dokploy", "deploy/deploy-with-dokploy");
  ("tutorials/customize-landing-page", "tutorials/customize-landing-page");
  ("tutorials/new-page", "tutorials/new-page");
  ("tutorials/new-components", "tutorials/new-components");
  ("tutorials/api-call", "tutorials/api-call");
  ("tutorials/edit-agreement", "tutorials/edit-agreement") ]%string.

(** ** The index text built by [create_index] *)

Module Index.
Import PyStr.

(** The triple-quoted literal that opens [index_content]. *)
Definition index_header : string :=
  "# ShipAny 文档索引" +:+ LF +:+ LF +:+
  "本文档包含 ShipAny 项目的完整操作指南。" +:+ LF +:+ LF +:+
  "## 目录结构" +:+ LF +:+ LF.

Definition fallback_section : string := "主要文档".

(** [filename.split('/')[0] if '/' in filename else "主要文档"] *)
Definition section_of (filename : string) : string :=
  if contains "/" filename then first (split "/" filename)
  else fallback_section.

(** [filename.split('/')[-1].replace('-', ' ').title()] *)
Definition title_of (filename : string) : string :=
  title (replace "-" " " (final (split "/" filename))).

(** One turn of the loop; the pair is
    ([index_content], [current_section]). *)
Definition index_step (acc : string * string) (entry : string * string)
  : string * string :=
  let '(index_content, current_section) := acc in
  let filename := entry.2 in
  let section := section_of filename in
  let '(index_content, current_section) :=
    if String.eqb section current_section
    then (index_content, current_section)
    else (index_content +:+ LF +:+ "## " +:+ title section +:+ LF +:+ LF,
          section) in
  (index_content
     +:+ "- [" +:+ title_of filename +:+ "](./" +:+ filename +:+ ".md)" +:+ LF,
   current_section).

(** The text that [create_index] hands to [f.write]. *)
Definition index_content (pages : list (string * string)) : string :=
  (fold_left index_step pages (index_header, EmptyString)).1.

(** The index as the specification words it: walking the catalogue
    with the section of the entry before, a heading comes out when
    the section changes and one list item comes out for every
    entry. *)
Inductive block :=
| Heading (text : string)
| Item (text : string) (filename : string).

Fixpoint index_blocks (previous : string) (pages : list (string * string))
  : list block :=
  match pages with
  | [] => []
  | entry :: rest =>
      let section := section_of entry.2 in
      (if String.eqb section previous then [] else [Heading (title section)])
        ++ Item (title_of entry.2) entry.2 :: index_blocks section rest
  end.

Definition render_block (b : block) : string :=
  match b with
  | Heading text => LF +:+ "## " +:+ text +:+ LF +:+ LF
  | Item text filename =>
      "- [" +:+ text +:+ "](./" +:+ filename +:+ ".md)" +:+ LF
  end.

Fixpoint render (bs : list block) : string :=
  match bs with
  | [] => EmptyString
  | b :: bs' => render_block b +:+ render bs'
  end.

Definition headings (bs : list block) : list string :=
  omap (fun b => match b with Heading t => Some t | Item _ _ => None end) bs.

Definition items (bs : list block) : list (string * string) :=
  omap (fun b => match b with Heading _ => None | Item t f => Some (t, f) end) bs.

End Index.

(** ** The parsed document and the removal loop of [convert_page] *)

Module Soup.

(** What the parser reads and the serialiser prints: character data
    (text, comments, declarations) and tags with their contents. *)
Inductive node :=
| NavigableString (text : string)
| Tag (name : string) (attrs : list (string * string)) (contents : list node).

(** The same tree as Python objects: [oid] is the identity of the
    object, which is what [find_all] returns and [decompose] acts
    on. *)
Inductive element :=
| EString (oid : nat) (text : string)
| ETag (oid : nat) (name : string) (attrs : list (string * string))
       (contents : list element).

Inductive kind :=
| KString (text : string)
| KTag (name : string).

(** A left-to-right map that threads a counter. *)
Definition map_accum {A B S : Type} (f : S → A → B * S)
  : S → list A → list B * S :=
  fix go (s : S) (l : list A) : list B * S :=
    match l with
    | [] => ([], s)
    | x :: l' =>
        let '(y, s1) := f s x in
        let '(ys, s2) := go s1 l' in
        (y :: ys, s2)
    end.

(** Building the objects of a tree: identities are handed out in
    document order, starting from [next]. *)
Fixpoint build (next : nat) (x : node) : element * nat :=
  match x with
  | NavigableString s => (EString next s, S next)
  | Tag nm at_ cs =>
      let '(cs', next') := map_accum build (S next) cs in
      (ETag next nm at_ cs', next')
  end.

(** The [BeautifulSoup] object: the top-level contents of the
    document. *)
Definition soup_of (doc : list node) : list element :=
  (map_accum build 0 doc).1.

(** The tree that [str(soup)] serialises. *)
Fixpoint markup (e : element) : node :=
  match e with
  | EString _ s => NavigableString s
  | ETag _ nm at_ cs => Tag nm at_ (markup <$> cs)
  end.

Definition oid_of (e : element) : nat :=
  match e with EString i _ => i | ETag i _ _ _ => i end.

(** Every object of a tree, in document order. *)
Fixpoint objects (e : element) : list (nat * kind) :=
  match e with
  | EString i s => [(i, KString s)]
  | ETag i nm _ cs => (i, KTag nm) :: (cs ≫= objects)
  end.

(** [soup.find_all(names)]: the tags below the root whose name is in
    [names], in document order, nested ones included. *)
Fixpoint find_all_in (names : list string) (e : element) : list nat :=
  match e with
  | EString _ _ => []
  | ETag i nm _ cs =>
      (if decide (nm ∈ names) then [i] else []) ++ (cs ≫= find_all_in names)
  end.

Definition find_all (names : list string) (soup : list element) : list nat :=
  soup ≫= find_all_in names.

(** [tag.decompose()]: the object is taken out of the contents of its
    parent, with everything below it; on an object that is no longer
    in the tree nothing happens. *)
Fixpoint detach (target : nat) (e : element) : option element :=
  match e with
  | EString i s => if decide (i = target) then None else Some e
  | ETag i nm at_ cs =>
      if decide (i = target) then None
      else Some (ETag i nm at_ (omap (detach target) cs))
  end.

Definition decompose (soup : list element) (target : nat) : list element :=
  omap (detach target) soup.

Definition excluded : list string :=
  ["nav"; "aside"; "footer"; "script"; "style"]%string.

(** [for tag in soup.find_all([...]): tag.decompose()] *)
Definition extract (soup : list element) : list element :=
  fold_left decompose (find_all excluded soup) soup.

(** Removing the tags named in [names], at every depth, written
    directly on the markup. *)
Fixpoint strip_node (names : list string) (x : node) : option node :=
  match x with
  | NavigableString _ => Some x
  | Tag nm at_ cs =>
      if decide (nm ∈ names) then None
      else Some (Tag nm at_ (omap (strip_node names) cs))
  end.

Definition strip (names : list string) (doc : list node) : list node :=
  omap (strip_node names) doc.

(** The same on objects. *)
Fixpoint prune_element (names : list string) (e : element) : option element :=
  match e with
  | EString _ _ => Some e
  | ETag i nm at_ cs =>
      if decide (nm ∈ names) then None
      else Some (ETag i nm at_ (omap (prune_element names) cs))
  end.

Definition prune (names : list string) (soup : list element) : list element :=
  omap (prune_element names) soup.

(** Does a tag named in [names] occur in the tree, at any depth? *)
Fixpoint has_tag (names : list string) (x : node) : bool :=
  match x with
  | NavigableString _ => false
  | Tag nm _ cs => bool_decide (nm ∈ names) || existsb (has_tag names) cs
  end.

(** The objects that are a tag named in [names] or lie inside one:
    the tags themselves, their text and everything nested in them. *)
Fixpoint removed (names : list string) (e : element) : list (nat * kind) :=
  match e with
  | EString _ _ => []
  | ETag i nm _ cs =>
      if decide (nm ∈ names) then (i, KTag nm) :: (cs ≫= objects)
      else cs ≫= removed names
  end.

(** A list of targets that holds the identity of an object exactly
    when the object is a tag named in [names]. *)
Definition selects (names : list string) (targets : list nat) (p : nat * kind)
  : Prop :=
  p.1 ∈ targets ↔ ∃ nm, p.2 = KTag nm ∧ nm ∈ names.

(** Taking out several objects at once. *)
Fixpoint detach_all (targets : list nat) (e : element) : option element :=
  match e with
  | EString i s => if decide (i ∈ targets) then None else Some e
  | ETag i nm at_ cs =>
      if decide (i ∈ targets) then None
      else Some (ETag i nm at_ (omap (detach_all targets) cs))
  end.

(** Two documents that are the same outside the tags named in
    [names]: such tags may differ in number, place, attributes and
    contents. *)
Inductive same_outside (names : list string) : list node → list node → Prop :=
| same_nil : same_outside names [] []
| same_text s l l' :
    same_outside names l l' →
    same_outside names (NavigableString s :: l) (NavigableString s :: l')
| same_tag nm at_ cs cs' l l' :
    nm ∉ names →
    same_outside names cs cs' →
    same_outside names l l' →
    same_outside names (Tag nm at_ cs :: l) (Tag nm at_ cs' :: l')
| same_left nm at_ cs l l' :
    nm ∈ names →
    same_outside names l l' →
    same_outside names (Tag nm at_ cs :: l) l'
| same_right nm at_ cs l l' :
    nm ∈ names →
    same_outside names l l' →
    same_outside names l (Tag nm at_ cs :: l').

End Soup.

(** ** Exceptions, the outside world and the state of a run *)

(** The exceptions the program can meet; all of them derive from
    [Exception], which is what [convert_page] catches. *)
Inductive exn :=
| ConnectionError
| Timeout
| HTTPError (status : Z)
| OSError (path : string).

(** The two fields of a [requests.Response] that the program reads. *)
Record response := { status_code : Z; content : string }.

(** The settings of the [html2text.HTML2Text] object. *)
Record html2text_config :=
  { ignore_links : bool; body_width : Z; unicode_snob : bool }.

(** The packages the program calls. *)
Record library :=
  { urljoin : string → string → string;
    html_parser : string → list Soup.node;
    str_soup : list Soup.node → string;
    html2text : html2text_config → string → string }.

(** The server and the operating system during one run: what a GET of
    a URL brings back (an exception of [requests] or a response), and
    the paths at which creating a directory or opening a file for
    writing is refused. *)
Record world :=
  { remote : string → exn + response;
    denied : string → bool }.

(** The lines printed on standard output, by the statement that prints
    them. *)
Inductive output :=
| Converting (url : string)
| Saved (file_path : string)
| Failed (url : string) (e : exn)
| Summary (successful failed : nat)
| IndexCreated.

Record state :=
  { files : gmap string string;
    dirs : gset string;
    requests : list string;
    stdout : list output;
    slept : nat }.

Definition initial : state :=
  {| files := ∅; dirs := ∅; requests := []; stdout := []; slept := 0 |}.

(** A computation changes the state and ends with a value or with an
    exception; the changes made before an exception stay. *)
Definition M (A : Type) : Type := state → (exn + A) * state.

Definition ret {A} (a : A) : M A := λ st, (inr a, st).

Definition raise {A} (e : exn) : M A := λ st, (inl e, st).

Definition bind {A B} (m : M A) (k : A → M B) : M B :=
  λ st, match m st with
        | (inl e, st') => (inl e, st')
        | (inr a, st') => k a st'
        end.

(** [try: body  except Exception as e: handler] *)
Definition try_except {A} (body : M A) (handler : exn → M A) : M A :=
  λ st, match body st with
        | (inl e, st') => handler e st'
        | (inr a, st') => (inr a, st')
        end.

Declare Scope py_scope.
Delimit Scope py_scope with py.
Notation "x <- m ;; k" := (bind m (λ x, k))
  (at level 100, m at next level, right associativity) : py_scope.
Notation "m ;; k" := (bind m (λ _, k))
  (at level 100, right associativity) : py_scope.
Local Open Scope py_scope.

(** [for x in l: body], with the local variables the body updates. *)
Fixpoint for_in {A V} (l : list A) (vars : V) (body : V → A → M V) : M V :=
  match l with
  | [] => ret vars
  | x :: l' => (vars' <- body vars x ;; for_in l' vars' body)
  end.

Definition print (o : output) : M unit :=
  λ st, (inr (),
         {| files := files st; dirs := dirs st; requests := requests st;
            stdout := stdout st ++ [o]; slept := slept st |}).

(** [time.sleep(secs)] *)
Definition sleep (secs : nat) : M unit :=
  λ st, (inr (),
         {| files := files st; dirs := dirs st; requests := requests st;
            stdout := stdout st; slept := slept st + secs |}).

(** [session.get(url, timeout=10)] *)
Definition session_get (W : world) (url : string) : M response :=
  λ st, (remote W url,
         {| files := files st; dirs := dirs st;
            requests := requests st ++ [url];
            stdout := stdout st; slept := slept st |}).

(** [Response.raise_for_status] of [requests]: an [HTTPError] for a
    client error (400 to 499) or a server error (500 to 599), nothing
    for any other status. *)
Definition raise_for_status (r : response) : M unit :=
  if (400 <=? status_code r)%Z && (status_code r <? 500)%Z
  then raise (HTTPError (status_code r))
  else if (500 <=? status_code r)%Z && (status_code r <? 600)%Z
  then raise (HTTPError (status_code r))
  else ret ().

Fixpoint drop_while {A} (f : A → bool) (l : list A) : list A :=
  match l with
  | [] => []
  | x :: l' => if f x then drop_while f l' else l
  end.

(** [os.path.dirname] of [posixpath]: the part up to the last slash,
    without its trailing slashes unless it is made of slashes only. *)
Definition dirname (p : string) : string :=
  let slash := Ascii.eqb "/" in
  let head := drop_while (λ c, negb (slash c)) (rev (list_ascii_of_string p)) in
  if forallb slash head then string_of_list_ascii (rev head)
  else string_of_list_ascii (rev (drop_while slash head)).

(** [os.makedirs(name, exist_ok=True)] *)
Definition makedirs (W : world) (name : string) : M unit :=
  λ st, if denied W name then (inl (OSError name), st)
        else (inr (),
              {| files := files st; dirs := {[name]} ∪ dirs st;
                 requests := requests st; stdout := stdout st;
                 slept := slept st |}).

(** [open(path, 'w', encoding='utf-8')]: the file is created or
    emptied. *)
Definition open_w (W : world) (path : string) : M unit :=
  λ st, if denied W path then (inl (OSError path), st)
        else (inr (),
              {| files := <[path := EmptyString]> (files st); dirs := dirs st;
                 requests := requests st; stdout := stdout st;
                 slept := slept st |}).

(** [f.write(text)] on the file opened at [path]. *)
Definition f_write (path text : string) : M unit :=
  λ st, (inr (),
         {| files := alter (λ old, old +:+ text) path (files st);
            dirs := dirs st; requests := requests st; stdout := stdout st;
            slept := slept st |}).

(** ** The converter *)

Record converter := { base_url : string; h : html2text_config }.

Definition README : string := "shipany_docs/README.md".

Section Converter.
Variable L : library.
Variable W : world.
Import PyStr.

(** [ShipAnyDocsConverter.__init__] *)
Definition init (base_url : string) : M converter :=
  let h := {| ignore_links := false; body_width := 0; unicode_snob := true |} in
  makedirs W "shipany_docs" ;;
  ret {| base_url := base_url; h := h |}.

(** The two statements that fetch a page. *)
Definition fetch (url : string) : M string :=
  response <- session_get W url ;;
  raise_for_status response ;;
  ret (content response).

(** From the fetched bytes to the Markdown text: parse, remove the
    unwanted tags, serialise, render. *)
Definition markdown_of (self : converter) (content : string) : string :=
  let soup := Soup.soup_of (html_parser L content) in
  let soup := Soup.extract soup in
  html2text L (h self) (str_soup L (Soup.markup <$> soup)).

(** [f"shipany_docs/{filename}.md"] *)
Definition file_path_of (filename : string) : string :=
  "shipany_docs/" +:+ filename +:+ ".md".

(** The heading line and the source line written before the body. *)
Definition page_header (filename url : string) : string :=
  ("# " +:+ title (replace "/" " - " filename) +:+ LF +:+ LF)
    +:+ ("来源: " +:+ url +:+ LF +:+ LF).

(** The body of the [try] statement of [convert_page]. *)
Definition convert_page_try (self : converter) (url filename : string) : M bool :=
  content <- fetch url ;;
  let markdown_content := markdown_of self content in
  let file_path := file_path_of filename in
  makedirs W (dirname file_path) ;;
  open_w W file_path ;;
  f_write file_path ("# " +:+ title (replace "/" " - " filename) +:+ LF +:+ LF) ;;
  f_write file_path ("来源: " +:+ url +:+ LF +:+ LF) ;;
  f_write file_path markdown_content ;;
  print (Saved file_path) ;;
  ret true.

Definition convert_page (self : converter) (page_path filename : string) : M bool :=
  let url := urljoin L (base_url self) page_path in
  print (Converting url) ;;
  try_except
    (convert_page_try self url filename)
    (λ e, print (Failed url e) ;; ret false).

(** One turn of the loop of [convert_all]; the variables are
    ([successful], [failed]). *)
Definition convert_all_body (self : converter)
  : nat * nat → string * string → M (nat * nat) :=
  λ '(successful, failed) '(page_path, filename),
    ok <- convert_page self page_path filename ;;
    let '(successful, failed) :=
      if ok : bool then (successful + 1, failed) else (successful, failed + 1) in
    sleep 1 ;;
    ret (successful, failed).

Definition convert_all_loop (self : converter) (pages : list (string * string))
  : M (nat * nat) :=
  for_in pages (0, 0) (convert_all_body self).

Definition convert_all_on (self : converter) (pages : list (string * string))
  : M unit :=
  counts <- convert_all_loop self pages ;;
  let '(successful, failed) := counts in
  print (Summary successful failed).

Definition convert_all (self : converter) : M unit :=
  convert_all_on self get_all_pages.

(** *** Summaries used in the statements *)

(** What the two fetching statements end with, as a function of the
    server's reply. *)
Definition fetched (url : string) : exn + string :=
  match remote W url with
  | inl e => inl e
  | inr r =>
      if (400 <=? status_code r)%Z && (status_code r <? 600)%Z
      then inl (HTTPError (status_code r))
      else inr (content r)
  end.

(** What the [try] block ends with: the first exception met, or the
    fetched bytes when every statement went through. *)
Definition attempt (url filename : string) : exn + string :=
  match fetched url with
  | inl e => inl e
  | inr content =>
      if denied W (dirname (file_path_of filename))
      then inl (OSError (dirname (file_path_of filename)))
      else if denied W (file_path_of filename)
      then inl (OSError (file_path_of filename))
      else inr content
  end.

Definition url_of (self : converter) (entry : string * string) : string :=
  urljoin L (base_url self) entry.1.

(** Does converting the entry succeed? *)
Definition page_ok (self : converter) (entry : string * string) : bool :=
  match attempt (url_of self entry) entry.2 with
  | inl _ => false
  | inr _ => true
  end.

(** The file that converting the entry leaves, when it succeeds. *)
Definition page_file (self : converter) (entry : string * string)
  : option (string * string) :=
  match attempt (url_of self entry) entry.2 with
  | inl _ => None
  | inr content =>
      Some (file_path_of entry.2,
            page_header entry.2 (url_of self entry) +:+ markdown_of self content)
  end.

(** Storing files one after the other, a later one over an earlier one
    at the same path. *)
Definition store (fs : gmap string string) (written : list (string * string))
  : gmap string string :=
  fold_left (λ m f, <[f.1 := f.2]> m) written fs.

Definition create_index_on (pages : list (string * string)) : M unit :=
  let index_content := Index.index_content pages in
  open_w W README ;;
  f_write README index_content ;;
  print IndexCreated.

Definition create_index : M unit := create_index_on get_all_pages.

(** The program on a catalogue; [main] is the [__main__] block. *)
Definition main_on (pages : list (string * string)) : M unit :=
  converter <- init "https://docs.shipany.ai/en" ;;
  convert_all_on converter pages ;;
  create_index_on pages.

Definition main : M unit := main_on get_all_pages.

End Converter.

(** The converter that the [__main__] block builds. *)
Definition the_converter : converter :=
  {| base_url := "https://docs.shipany.ai/en";
     h := {| ignore_links := false; body_width := 0; unicode_snob := true |} |}.

(** ** Instances to run the program on

    A toy library and three servers.  They stand in for the packages
    and for the site only where a statement below is tried on concrete
    data. *)

Module Example.
Import Soup.

Fixpoint serialise (x : node) : string :=
  match x with
  | NavigableString s => s
  | Tag nm _ cs =>
      "<" +:+ nm +:+ ">"
        +:+ fold_right (λ c rest, serialise c +:+ rest) EmptyString cs
        +:+ "</" +:+ nm +:+ ">"
  end.

(** The joiner answers as [urllib.parse.urljoin] does for the base of
    the program and a plain relative path.  Every page parses to a
    navigation bar around the fetched bytes, with a script in it,
    followed by a heading and a link; a tree is printed with its tags
    and the renderer hands its input back. *)
Definition lib : library :=
  {| urljoin := λ _ page_path, "https://docs.shipany.ai/" +:+ page_path;
     html_parser := λ content,
       [Tag "html" []
          [Tag "body" []
             [Tag "nav" [] [NavigableString content;
                            Tag "script" [] [NavigableString "track()"]];
              Tag "h1" [] [NavigableString "Hi"];
              Tag "a" [("href", "/next")] [NavigableString "Next"]]]];
     str_soup := λ doc, fold_right (λ c rest, serialise c +:+ rest) EmptyString doc;
     html2text := λ _ html, html |}.

Definition reply (status : Z) (body : string) : exn + response :=
  inr {| status_code := status; content := body |}.

(** Every page is served. *)
Definition up : world :=
  {| remote := λ _, reply 200 "skip"; denied := λ _, false |}.

(** Every page is answered with 304 Not Modified. *)
Definition not_modified : world :=
  {| remote := λ _, reply 304 "cached"; denied := λ _, false |}.

(** The page [b] is missing, the connection drops on [c]. *)
Definition flaky : world :=
  {| remote := λ url,
       if String.eqb url "https://docs.shipany.ai/b" then reply 404 "Not Found"
       else if String.eqb url "https://docs.shipany.ai/c" then inl ConnectionError
       else reply 200 "skip";
     denied := λ _, false |}.

Definition abz : list (string * string) :=
  [("a/x", "a/x"); ("a/y", "a/y"); ("b/z", "b/z")]%string.

Definition abc : list (string * string) :=
  [("a", "a"); ("b", "b"); ("c", "c"); ("d", "d")]%string.

End Example.

(** ** Further notions used in the statements *)

(** The two lines that [convert_page] prints for an entry: the line
    that announces the URL, then the line of the saved file or the
    line of the failure, with the exception that stopped the page. *)
Definition page_lines (L : library) (W : world) (self : converter)
    (entry : string * string) : list output :=
  [Converting (url_of L self entry);
   match attempt W (url_of L self entry) entry.2 with
   | inl e => Failed (url_of L self entry) e
   | inr _ => Saved (file_path_of entry.2)
   end].

(** The sections at which the loop of [create_index] puts a heading:
    those that differ from the section before. *)
Fixpoint section_changes (previous : string) (sections : list string)
  : list string :=
  match sections with
  | [] => []
  | section :: rest =>
      (if String.eqb section previous then [] else [section])
        ++ section_changes section rest
  end.

(** A list of sections in which the entries of one section stand
    together: once a section has been left it does not come back. *)
Fixpoint grouped (sections : list string) : Prop :=
  match sections with
  | [] => True
  | section :: rest =>
      (section ∉ drop_while (String.eqb section) rest) ∧ grouped rest
  end.

(** * Properties *)

(** ** The removal loop *)

Module SoupFacts.
Import Soup.

Lemma element_ind' (P : element → Prop) :
  (∀ i s, P (EString i s)) →
  (∀ i nm at_ cs, Forall P cs → P (ETag i nm at_ cs)) →
  ∀ e, P e.
Proof.
  intros Hs Ht. fix IH 1. intros [i s|i nm at_ cs]; [apply Hs|].
  apply Ht. induction cs as [|c cs IHcs]; constructor; [apply IH|exact IHcs].
Qed.

Lemma node_ind' (P : node → Prop) :
  (∀ s, P (NavigableString s)) →
  (∀ nm at_ cs, Forall P cs → P (Tag nm at_ cs)) →
  ∀ x, P x.
Proof.
  intros Hs Ht. fix IH 1. intros [s|nm at_ cs]; [apply Hs|].
  apply Ht. induction cs as [|c cs IHcs]; constructor; [apply IH|exact IHcs].
Qed.

(** Two general facts on [omap]. *)
Lemma omap_pointwise {A B} (f g : A → option B) (l : list A) :
  Forall (λ x, f x = g x) l → omap f l = omap g l.
Proof.
  induction 1 as [|x l Hx _ IH]; [done|]. cbn. by rewrite Hx, IH.
Qed.

Lemma omap_compose {A B C} (f : A → option B) (g : B → option C)
    (k : A → option C) (l : list A) :
  Forall (λ x, f x ≫= g = k x) l → omap g (omap f l) = omap k l.
Proof.
  induction 1 as [|x l Hx _ IH]; [done|]. cbn.
  rewrite <- Hx. destruct (f x) as [y|]; cbn; [|exact IH].
  destruct (g y); by rewrite IH.
Qed.

Lemma omap_keep {A} (f : A → option A) (l : list A) :
  Forall (λ x, f x = Some x) l → omap f l = l.
Proof.
  induction 1 as [|x l Hx _ IH]; [done|]. cbn. by rewrite Hx, IH.
Qed.

Lemma NoDup_fst_functional {A B} (l : list (A * B)) x y1 y2 :
  NoDup l.*1 → (x, y1) ∈ l → (x, y2) ∈ l → y1 = y2.
Proof.
  induction l as [|[a b] l IH]; cbn; intros Hnd H1 H2.
  - by apply elem_of_nil in H1.
  - apply NoDup_cons in Hnd as [Ha Hnd].
    apply elem_of_cons in H1 as [H1|H1], H2 as [H2|H2].
    + congruence.
    + injection H1 as <- <-. destruct Ha.
      apply list_elem_of_fmap. by exists (x, y2).
    + injection H2 as <- <-. destruct Ha.
      apply list_elem_of_fmap. by exists (x, y1).
    + by apply IH.
Qed.

(** Taking out no object changes nothing. *)
Lemma detach_all_nil e : detach_all [] e = Some e.
Proof.
  induction e as [i s|i nm at_ cs IH] using element_ind'; cbn.
  - case_decide as H; [by apply elem_of_nil in H|done].
  - case_decide as H; [by apply elem_of_nil in H|].
    by rewrite (omap_keep _ _ IH).
Qed.

(** Taking out [i] and then the objects of [L] is taking out all of
    them at once. *)
Lemma detach_then_all i L e :
  detach i e ≫= detach_all L = detach_all (i :: L) e.
Proof.
  induction e as [j s|j nm at_ cs IH] using element_ind'; cbn.
  - destruct (decide (j = i)) as [->|Hne]; cbn.
    + by rewrite decide_True by left.
    + destruct (decide (j ∈ L)) as [Hin|Hnin].
      * by rewrite decide_True by (by right).
      * rewrite decide_False; [done|]. rewrite elem_of_cons. tauto.
  - destruct (decide (j = i)) as [->|Hne]; cbn.
    + by rewrite decide_True by left.
    + rewrite (omap_compose _ _ _ _ IH).
      destruct (decide (j ∈ L)) as [Hin|Hnin].
      * by rewrite decide_True by (by right).
      * rewrite decide_False; [done|]. rewrite elem_of_cons. tauto.
Qed.

(** The loop over the result of [find_all], one [decompose] at a
    time, takes out exactly the objects of the list. *)
Lemma fold_decompose L soup :
  fold_left decompose L soup = omap (detach_all L) soup.
Proof.
  revert soup. induction L as [|i L IH]; intros soup; cbn.
  - symmetry. apply omap_keep, Forall_forall. intros e _. apply detach_all_nil.
  - rewrite IH. unfold decompose. apply omap_compose, Forall_forall.
    intros e _. apply detach_then_all.
Qed.

(** What [find_all] returns, read off the list of objects. *)
Lemma elem_of_find_all_in names e j :
  j ∈ find_all_in names e ↔ ∃ nm, (j, KTag nm) ∈ objects e ∧ nm ∈ names.
Proof.
  induction e as [i s|i nm at_ cs IH] using element_ind'; cbn.
  - split; [by intros ?%elem_of_nil|].
    intros (nm & Hin & _). apply list_elem_of_singleton in Hin. congruence.
  - rewrite elem_of_app, list_elem_of_bind. split.
    + intros [Hhere|(c & Hj & Hc)].
      * case_decide as Hnm; [|by apply elem_of_nil in Hhere].
        apply list_elem_of_singleton in Hhere as ->.
        exists nm. split; [left|done].
      * rewrite Forall_forall in IH. apply (IH c Hc) in Hj as (nm' & Hobj & Hnm').
        exists nm'. split; [|done]. right. apply list_elem_of_bind. eauto.
    + intros (nm' & Hobj & Hnm'). apply elem_of_cons in Hobj as [Heq|Hobj].
      * injection Heq as -> ->. left. rewrite decide_True by done. left.
      * right. apply list_elem_of_bind in Hobj as (c & Hobj & Hc).
        exists c. split; [|done]. rewrite Forall_forall in IH.
        apply (IH c Hc). eauto.
Qed.

Lemma elem_of_find_all names soup j :
  j ∈ find_all names soup ↔
  ∃ nm, (j, KTag nm) ∈ soup ≫= objects ∧ nm ∈ names.
Proof.
  unfold find_all. rewrite list_elem_of_bind. split.
  - intros (e & Hj & He). apply elem_of_find_all_in in Hj as (nm & Hobj & Hnm).
    exists nm. split; [|done]. apply list_elem_of_bind. eauto.
  - intros (nm & Hobj & Hnm). apply list_elem_of_bind in Hobj as (e & Hobj & He).
    exists e. split; [|done]. apply elem_of_find_all_in. eauto.
Qed.

Lemma detach_all_prune names L e :
  Forall (selects names L) (objects e) →
  detach_all L e = prune_element names e.
Proof.
  induction e as [i s|i nm at_ cs IH] using element_ind'; cbn; intros Hsel.
  - apply Forall_cons in Hsel as [Hi _]. unfold selects in Hi; cbn in Hi.
    rewrite decide_False; [done|]. intros Hin. apply Hi in Hin as (? & ? & _).
    discriminate.
  - apply Forall_cons in Hsel as [Hi Hcs]. unfold selects in Hi; cbn in Hi.
    assert (omap (detach_all L) cs = omap (prune_element names) cs) as ->.
    { apply omap_pointwise. rewrite Forall_forall in IH. rewrite Forall_forall in Hcs.
      apply Forall_forall. intros c Hc. apply (IH c Hc). apply Forall_forall. intros p Hp.
      apply Hcs, list_elem_of_bind. eauto. }
    destruct (decide (nm ∈ names)) as [Hnm|Hnm].
    + rewrite decide_True; [done|]. apply Hi. eauto.
    + rewrite decide_False; [done|]. intros Hin. apply Hi in Hin as (? & [= <-] & ?).
      done.
Qed.

(** When no two objects share an identity, the result of [find_all]
    selects the named tags. *)
Lemma find_all_selects names soup :
  NoDup (soup ≫= objects).*1 →
  Forall (selects names (find_all names soup)) (soup ≫= objects).
Proof.
  intros Hnd. apply Forall_forall. intros [j k] Hp. unfold selects; cbn.
  rewrite elem_of_find_all. split.
  - intros (nm & Hobj & Hnm). exists nm. split; [|done].
    apply (NoDup_fst_functional _ j _ _ Hnd); done.
  - intros (nm & -> & Hnm). eauto.
Qed.

(** The loop of [convert_page] leaves the tree without the tags of the
    list, whatever their depth. *)
Lemma extract_prune soup :
  NoDup (soup ≫= objects).*1 → extract soup = prune excluded soup.
Proof.
  intros Hnd. unfold extract, prune. rewrite fold_decompose.
  apply omap_pointwise. pose proof (find_all_selects excluded soup Hnd) as Hsel.
  rewrite Forall_forall in Hsel. apply Forall_forall. intros e He. apply detach_all_prune.
  apply Forall_forall. intros p Hp. apply Hsel, list_elem_of_bind. eauto.
Qed.

(** Building the objects hands out the identities [n], [n + 1], ... in
    document order. *)
Lemma map_accum_objects (l : list node) :
  Forall (λ x, ∀ n, ∃ k, (build n x).2 = n + k ∧
                         (objects (build n x).1).*1 = seq n k) l →
  ∀ n, ∃ k, (map_accum build n l).2 = n + k ∧
            ((map_accum build n l).1 ≫= objects).*1 = seq n k.
Proof.
  induction 1 as [|x l Hx _ IH]; intros n; cbn.
  - exists 0. split; [lia|done].
  - destruct (Hx n) as (k1 & Hn1 & Hs1).
    destruct (build n x) as [e n1]; cbn in Hn1, Hs1. subst n1.
    destruct (IH (n + k1)) as (k2 & Hn2 & Hs2).
    destruct (map_accum build (n + k1) l) as [es n2]; cbn in Hn2, Hs2 |- *.
    exists (k1 + k2). split; [lia|].
    rewrite fmap_app, Hs1, Hs2. symmetry. apply seq_app.
Qed.

Lemma build_objects x :
  ∀ n, ∃ k, (build n x).2 = n + k ∧ (objects (build n x).1).*1 = seq n k.
Proof.
  induction x as [s|nm at_ cs IH] using node_ind'; intros n; cbn.
  - exists 1. split; [lia|done].
  - destruct (map_accum_objects cs IH (S n)) as (k & Hn & Hs).
    destruct (map_accum build (S n) cs) as [es n']; cbn in Hn, Hs |- *.
    exists (S k). split; [lia|]. cbn. by rewrite Hs.
Qed.

(** In the [BeautifulSoup] object no two objects share an identity. *)
Lemma soup_of_NoDup doc : NoDup (soup_of doc ≫= objects).*1.
Proof.
  unfold soup_of.
  destruct (map_accum_objects doc) with (n := 0) as (k & _ & ->).
  - apply Forall_forall. intros x _. apply build_objects.
  - apply NoDup_seq.
Qed.

(** Serialising the objects gives back the parsed markup. *)
Lemma markup_map_accum (l : list node) :
  Forall (λ x, ∀ n, markup (build n x).1 = x) l →
  ∀ n, markup <$> (map_accum build n l).1 = l.
Proof.
  induction 1 as [|x l Hx _ IH]; intros n; cbn; [done|].
  specialize (Hx n). destruct (build n x) as [e n1]; cbn in Hx.
  specialize (IH n1). destruct (map_accum build n1 l) as [es n2]; cbn in IH |- *.
  by rewrite Hx, IH.
Qed.

Lemma markup_build x n : markup (build n x).1 = x.
Proof.
  revert n. induction x as [s|nm at_ cs IH] using node_ind'; intros n; cbn; [done|].
  pose proof (markup_map_accum cs IH (S n)) as Hcs.
  destruct (map_accum build (S n) cs) as [es n']; cbn in Hcs |- *.
  by rewrite Hcs.
Qed.

Lemma markup_soup_of doc : markup <$> soup_of doc = doc.
Proof.
  apply markup_map_accum, Forall_forall. intros x _ n. apply markup_build.
Qed.

(** Pruning the objects is stripping the markup. *)
Lemma markup_prune_element names e :
  markup <$> prune_element names e = strip_node names (markup e).
Proof.
  induction e as [i s|i nm at_ cs IH] using element_ind'; cbn; [done|].
  case_decide; cbn; [done|]. do 2 f_equal.
  induction IH as [|c cs Hc _ IHcs]; cbn; [done|].
  rewrite <- Hc. destruct (prune_element names c); cbn; by rewrite IHcs.
Qed.

Lemma markup_prune names soup :
  markup <$> prune names soup = strip names (markup <$> soup).
Proof.
  unfold prune, strip. induction soup as [|e soup IH]; cbn; [done|].
  rewrite <- markup_prune_element.
  destruct (prune_element names e); cbn; by rewrite IH.
Qed.

(** What [str(soup)] serialises after the loop: the parsed document
    without the excluded tags. *)
Lemma markup_extract doc :
  markup <$> extract (soup_of doc) = strip excluded doc.
Proof.
  rewrite extract_prune by apply soup_of_NoDup.
  by rewrite markup_prune, markup_soup_of.
Qed.

(** No tag of the list is left after stripping, at any depth. *)
Lemma has_tag_strip_node names x y :
  strip_node names x = Some y → has_tag names y = false.
Proof.
  revert y. induction x as [s|nm at_ cs IH] using node_ind'; cbn; intros y Hy.
  - by injection Hy as <-.
  - case_decide as Hnm; [done|]. injection Hy as <-. cbn.
    rewrite bool_decide_eq_false_2 by done. cbn.
    induction IH as [|c cs Hc _ IHcs]; cbn; [done|].
    destruct (strip_node names c) as [c'|] eqn:Hc'; cbn; [|exact IHcs].
    by rewrite (Hc c'), IHcs.
Qed.

Lemma has_tag_strip names doc :
  existsb (has_tag names) (strip names doc) = false.
Proof.
  unfold strip. induction doc as [|x doc IH]; cbn; [done|].
  destruct (strip_node names x) as [y|] eqn:Hy; cbn; [|exact IH].
  by rewrite (has_tag_strip_node names x y), IH.
Qed.

(** Documents that are the same outside the tags of the list strip to
    the same document. *)
Lemma same_outside_strip names doc doc' :
  same_outside names doc doc' → strip names doc = strip names doc'.
Proof.
  unfold strip. induction 1 as [|s l l' _ IH|nm at_ cs cs' l l' Hnm _ IHcs _ IH
                                |nm at_ cs l l' Hnm _ IH|nm at_ cs l l' Hnm _ IH]; cbn.
  - done.
  - by rewrite IH.
  - destruct (decide (nm ∈ names)); [done|]. by rewrite IHcs, IH.
  - by destruct (decide (nm ∈ names)).
  - by destruct (decide (nm ∈ names)).
Qed.

(** Every object of the tree is kept by pruning or is counted in
    [removed], and none is both. *)
Lemma objects_split_element names e :
  objects e ≡ₚ from_option objects [] (prune_element names e) ++ removed names e.
Proof.
  induction e as [i s|i nm at_ cs IH] using element_ind'; cbn; [done|].
  case_decide as Hnm; cbn; [done|]. constructor.
  induction IH as [|c cs Hc _ IHcs]; cbn; [done|].
  rewrite Hc, IHcs. destruct (prune_element names c) as [c'|]; cbn.
  - rewrite <- !(assoc_L (++)). f_equiv.
    rewrite !(assoc_L (++)). f_equiv. apply Permutation_app_comm.
  - rewrite !(assoc_L (++)). f_equiv. apply Permutation_app_comm.
Qed.

Lemma objects_split names soup :
  soup ≫= objects ≡ₚ (prune names soup ≫= objects) ++ (soup ≫= removed names).
Proof.
  unfold prune. induction soup as [|e soup IH]; cbn; [done|].
  rewrite (objects_split_element names e), IH.
  destruct (prune_element names e) as [e'|]; cbn.
  - rewrite <- !(assoc_L (++)). f_equiv.
    rewrite !(assoc_L (++)). f_equiv. apply Permutation_app_comm.
  - rewrite !(assoc_L (++)). f_equiv. apply Permutation_app_comm.
Qed.

(** An object counted in [removed] is not in the tree after the
    loop. *)
Lemma removed_not_kept doc j k :
  (j, k) ∈ soup_of doc ≫= removed excluded →
  j ∉ (extract (soup_of doc) ≫= objects).*1.
Proof.
  intros Hrem. rewrite extract_prune by apply soup_of_NoDup.
  pose proof (soup_of_NoDup doc) as Hnd.
  rewrite (objects_split excluded), fmap_app in Hnd.
  apply NoDup_app in Hnd as (_ & Hdisj & _). intros Hin.
  apply (Hdisj j Hin). apply list_elem_of_fmap. by exists (j, k).
Qed.

End SoupFacts.

(** ** One page *)

Lemma append_assoc (a b c : string) : (a +:+ b) +:+ c = a +:+ (b +:+ c).
Proof.
  induction a as [|x a IH]; [done|].
  change (String x ((a +:+ b) +:+ c) = String x (a +:+ (b +:+ c))).
  by rewrite IH.
Qed.

Section Pipeline.
Variable L : library.
Variable W : world.
Variable self : converter.

(** The fetching statements end as [fetched] says, and the request is
    on record whatever the end. *)
Lemma fetch_run url st :
  fetch W url st =
  (fetched W url,
   {| files := files st; dirs := dirs st; requests := requests st ++ [url];
      stdout := stdout st; slept := slept st |}).
Proof.
  unfold fetch, fetched, bind, session_get, raise_for_status, raise, ret.
  destruct (remote W url) as [e|r]; [done|].
  destruct (Z.leb_spec 400 (status_code r)), (Z.ltb_spec (status_code r) 500),
    (Z.leb_spec 500 (status_code r)), (Z.ltb_spec (status_code r) 600);
    cbn; try done; lia.
Qed.

(** A page whose [try] block goes through: the value is [True] and the
    file holds the heading, the source line and the Markdown text. *)
Lemma convert_page_ok page_path filename content st :
  let url := urljoin L (base_url self) page_path in
  attempt W url filename = inr content →
  convert_page L W self page_path filename st =
  (inr true,
   {| files := <[file_path_of filename :=
                   page_header filename url +:+ markdown_of L self content]>
                 (files st);
      dirs := {[dirname (file_path_of filename)]} ∪ dirs st;
      requests := requests st ++ [url];
      stdout := (stdout st ++ [Converting url]) ++ [Saved (file_path_of filename)];
      slept := slept st |}).
Proof.
  intros url. unfold attempt, convert_page, convert_page_try, try_except.
  fold url. unfold bind at 1. cbn. unfold bind at 1. rewrite fetch_run.
  destruct (fetched W url) as [e|c]; [done|].
  destruct (denied W (dirname (file_path_of filename))) eqn:Hd; [done|].
  destruct (denied W (file_path_of filename)) eqn:Hf; [done|].
  intros [= ->].
  unfold bind, makedirs, open_w, f_write, print, ret; cbn. rewrite Hd, Hf; cbn.
  do 2 f_equal. by rewrite !alter_insert_eq.
Qed.

(** A page whose [try] block meets an exception: the value is [False],
    no file is touched, and the failure is printed. *)
Lemma convert_page_fail page_path filename e st :
  let url := urljoin L (base_url self) page_path in
  attempt W url filename = inl e →
  ∃ st', convert_page L W self page_path filename st = (inr false, st') ∧
         files st' = files st ∧
         requests st' = requests st ++ [url] ∧
         stdout st' = (stdout st ++ [Converting url]) ++ [Failed url e] ∧
         slept st' = slept st.
Proof.
  intros url. unfold attempt, convert_page, convert_page_try, try_except.
  fold url. unfold bind at 1. cbn. unfold bind at 1. rewrite fetch_run.
  destruct (fetched W url) as [e'|c].
  { intros [= ->]. eexists. split; [reflexivity|done]. }
  unfold bind, makedirs, open_w, f_write, print, ret; cbn.
  destruct (denied W (dirname (file_path_of filename))) eqn:Hd.
  { intros [= <-]. eexists. split; [reflexivity|done]. }
  destruct (denied W (file_path_of filename)) eqn:Hf; [|done].
  intros [= <-]. eexists. split; [reflexivity|done].
Qed.

(** ** The whole catalogue *)

(** Every turn of the loop of [convert_all] ends normally; it counts
    the page on one side, records its request, sleeps a second and
    leaves the file of a page that went through. *)
Lemma convert_all_body_run successful failed entry st :
  ∃ st', convert_all_body L W self (successful, failed) entry st =
           (inr (if page_ok L W self entry then (successful + 1, failed)
                 else (successful, failed + 1)), st') ∧
         files st' = store (files st) (option_list (page_file L W self entry)) ∧
         requests st' = requests st ++ [url_of L self entry] ∧
         slept st' = slept st + 1.
Proof.
  destruct entry as [page_path filename].
  unfold convert_all_body, page_ok, page_file, url_of, bind.
  change (page_path, filename).1 with page_path.
  change (page_path, filename).2 with filename.
  destruct (attempt W (urljoin L (base_url self) page_path) filename)
    as [e|content] eqn:Hatt.
  - destruct (convert_page_fail page_path filename e st Hatt)
      as (st' & -> & Hfiles & Hreq & _ & Hslept).
    eexists. split; [reflexivity|]. cbn. by rewrite Hfiles, Hreq, Hslept.
  - rewrite (convert_page_ok page_path filename content st Hatt).
    eexists. split; [reflexivity|done].
Qed.

Lemma for_in_convert_all pages : ∀ successful failed st,
  ∃ st', for_in pages (successful, failed) (convert_all_body L W self) st =
           (inr (successful + List.length (List.filter (page_ok L W self) pages),
                 failed + List.length (List.filter (λ e, negb (page_ok L W self e)) pages)),
            st') ∧
         files st' = store (files st) (omap (page_file L W self) pages) ∧
         requests st' = requests st ++ (url_of L self <$> pages) ∧
         slept st' = slept st + List.length pages.
Proof.
  induction pages as [|entry pages IH]; intros successful failed st.
  - exists st. cbn. unfold ret. rewrite !Nat.add_0_r, app_nil_r. done.
  - destruct (convert_all_body_run successful failed entry st)
      as (st1 & Hrun & Hfiles1 & Hreq1 & Hslept1).
    change (for_in (entry :: pages) (successful, failed) (convert_all_body L W self) st)
      with (match convert_all_body L W self (successful, failed) entry st with
            | (inl e, st') => (inl e, st')
            | (inr vars, st') => for_in pages vars (convert_all_body L W self) st'
            end).
    rewrite Hrun. cbn.
    destruct (page_ok L W self entry) eqn:Hok; cbn.
    + destruct (IH (successful + 1) failed st1) as (st' & -> & Hfiles & Hreq & Hslept).
      exists st'. split; [by rewrite <- Nat.add_assoc|].
      rewrite Hfiles, Hreq, Hslept, Hfiles1, Hreq1, Hslept1.
      split_and!; [by destruct (page_file L W self entry)
                  |by rewrite <- (assoc_L (++))|lia].
    + destruct (IH successful (failed + 1) st1) as (st' & -> & Hfiles & Hreq & Hslept).
      exists st'. split; [by rewrite <- Nat.add_assoc|].
      rewrite Hfiles, Hreq, Hslept, Hfiles1, Hreq1, Hslept1.
      split_and!; [by destruct (page_file L W self entry)
                  |by rewrite <- (assoc_L (++))|lia].
Qed.

End Pipeline.

(** ** The index *)

Module IndexFacts.
Import PyStr Index.

Lemma append_empty_r (a : string) : a +:+ EmptyString = a.
Proof.
  induction a as [|x a IH]; [done|].
  change (String x (a +:+ EmptyString) = String x a). by rewrite IH.
Qed.

(** The loop of [create_index] writes the blocks of [index_blocks],
    one after the other, behind the text it starts from. *)
Lemma fold_index_step pages : ∀ text current,
  (fold_left index_step pages (text, current)).1 =
  text +:+ render (index_blocks current pages).
Proof.
  induction pages as [|entry pages IH]; intros text current.
  - cbn. by rewrite append_empty_r.
  - change (fold_left index_step (entry :: pages) (text, current))
      with (fold_left index_step pages (index_step (text, current) entry)).
    change (index_blocks current (entry :: pages))
      with ((if String.eqb (section_of entry.2) current then []
             else [Heading (title (section_of entry.2))])
              ++ Item (title_of entry.2) entry.2
                 :: index_blocks (section_of entry.2) pages).
    unfold index_step.
    destruct (String.eqb (section_of entry.2) current) eqn:Heq.
    + apply String.eqb_eq in Heq. rewrite IH, <- Heq.
      change (render ([] ++ ?i :: ?bs)) with (render_block i +:+ render bs).
      unfold render_block. by rewrite !append_assoc.
    + rewrite IH.
      change (render ([?hd] ++ ?i :: ?bs))
        with (render_block hd +:+ render_block i +:+ render bs).
      unfold render_block. by rewrite !append_assoc.
Qed.

Lemma index_content_blocks pages :
  index_content pages = index_header +:+ render (index_blocks EmptyString pages).
Proof. apply fold_index_step. Qed.

(** One list item for every entry, in the order of the catalogue. *)
Lemma items_index_blocks pages : ∀ previous,
  items (index_blocks previous pages) = (λ e, (title_of e.2, e.2)) <$> pages.
Proof.
  induction pages as [|entry pages IH]; intros previous; [done|].
  cbn. destruct (String.eqb (section_of entry.2) previous); cbn;
    unfold items in IH; by rewrite IH.
Qed.

Lemma item_in_index_blocks pages entry : ∀ previous,
  entry ∈ pages →
  Item (title_of entry.2) entry.2 ∈ index_blocks previous pages.
Proof.
  induction pages as [|e pages IH]; intros previous Hin.
  - by apply elem_of_nil in Hin.
  - cbn. apply elem_of_app. right. apply elem_of_cons in Hin as [->|Hin].
    + left.
    + right. by apply IH.
Qed.

(** A heading for an entry exactly when its section differs from the
    one before. *)
Lemma headings_index_blocks_cons previous entry pages :
  headings (index_blocks previous (entry :: pages)) =
  (if String.eqb (section_of entry.2) previous then []
   else [title (section_of entry.2)])
    ++ headings (index_blocks (section_of entry.2) pages).
Proof.
  cbn. by destruct (String.eqb (section_of entry.2) previous).
Qed.

End IndexFacts.

(** ** Files left by a run *)

Lemma store_lookup_notin written : ∀ (fs : gmap string string) p,
  p ∉ written.*1 → store fs written !! p = fs !! p.
Proof.
  induction written as [|f written IH]; intros fs p Hp; [done|].
  apply not_elem_of_cons in Hp as [Hne Hp].
  change (store (<[f.1 := f.2]> fs) written !! p = fs !! p).
  rewrite IH by done. by apply lookup_insert_ne.
Qed.

(** A path that is written holds, at the end, a text that does not
    depend on what the file system held before. *)
Lemma store_lookup_in written : ∀ (fs1 fs2 : gmap string string) p,
  p ∈ written.*1 →
  store fs1 written !! p = store fs2 written !! p ∧
  is_Some (store fs1 written !! p).
Proof.
  induction written as [|f written IH]; intros fs1 fs2 p Hp.
  - by apply elem_of_nil in Hp.
  - change (store (<[f.1 := f.2]> fs1) written !! p =
            store (<[f.1 := f.2]> fs2) written !! p ∧
            is_Some (store (<[f.1 := f.2]> fs1) written !! p)).
    destruct (decide (p ∈ written.*1)) as [Hin|Hnin]; [by apply IH|].
    apply elem_of_cons in Hp as [->|Hp]; [|done].
    rewrite !store_lookup_notin by done.
    rewrite !lookup_insert_eq. eauto.
Qed.

Lemma dom_store written : ∀ fs : gmap string string,
  dom (store fs written) = dom fs ∪ list_to_set written.*1.
Proof.
  induction written as [|f written IH]; intros fs.
  - cbn. set_solver.
  - change (dom (store (<[f.1 := f.2]> fs) written) =
            dom fs ∪ list_to_set (f.1 :: written.*1)).
    rewrite IH, dom_insert_L. set_solver.
Qed.

Section Runs.
Variable L : library.
Variable W : world.
Variable self : converter.

(** The paths of the files that the pages leave. *)
Lemma page_file_paths pages :
  (omap (page_file L W self) pages).*1 =
  (λ e, file_path_of e.2) <$> List.filter (page_ok L W self) pages.
Proof.
  induction pages as [|entry pages IH]; [done|].
  cbn. unfold page_file at 1, page_ok at 1.
  destruct (attempt W (url_of L self entry) entry.2); cbn; by rewrite IH.
Qed.

(** [convert_all] ends normally and prints the two counts. *)
Lemma convert_all_on_run pages st :
  ∃ st', convert_all_on L W self pages st = (inr (), st') ∧
         files st' = store (files st) (omap (page_file L W self) pages) ∧
         requests st' = requests st ++ (url_of L self <$> pages) ∧
         last (stdout st') =
           Some (Summary (List.length (List.filter (page_ok L W self) pages))
                         (List.length (List.filter (λ e, negb (page_ok L W self e)) pages))).
Proof.
  unfold convert_all_on, convert_all_loop, bind.
  destruct (for_in_convert_all L W self pages 0 0 st)
    as (st1 & -> & Hfiles & Hreq & _).
  eexists. split; [reflexivity|]. cbn. split_and!; [done|done|].
  by rewrite last_snoc.
Qed.

(** [create_index] stores the index text at the fixed path, unless
    opening the file is refused. *)
Lemma create_index_on_run pages st :
  denied W README = false →
  ∃ st', create_index_on W pages st = (inr (), st') ∧
         files st' = <[README := Index.index_content pages]> (files st).
Proof.
  intros Hd. unfold create_index_on, bind, open_w, f_write, print.
  rewrite Hd. eexists. split; [reflexivity|]. cbn.
  by rewrite alter_insert_eq.
Qed.

Lemma create_index_on_denied pages st :
  denied W README = true →
  create_index_on W pages st = (inl (OSError README), st).
Proof.
  intros Hd. unfold create_index_on, bind, open_w. by rewrite Hd.
Qed.

End Runs.

(** A complete run: the output directory could be made and the index
    could be written; the files are those of the pages and then the
    index. *)
Lemma main_on_complete L W pages st st' :
  main_on L W pages st = (inr (), st') ↔
  denied W "shipany_docs" = false ∧ denied W README = false ∧
  ∃ st1, convert_all_on L W the_converter pages
           {| files := files st; dirs := {["shipany_docs"]} ∪ dirs st;
              requests := requests st; stdout := stdout st; slept := slept st |}
           = (inr (), st1) ∧
         create_index_on W pages st1 = (inr (), st').
Proof.
  unfold main_on, init. unfold bind at 1. unfold bind at 1. unfold makedirs.
  destruct (denied W "shipany_docs") eqn:Hd.
  { split; [done|]. by intros [? _]. }
  unfold ret. unfold bind at 1. fold the_converter.
  destruct (convert_all_on_run L W the_converter pages
              {| files := files st; dirs := {["shipany_docs"]} ∪ dirs st;
                 requests := requests st; stdout := stdout st; slept := slept st |})
    as (st1 & Hrun & _).
  rewrite Hrun. destruct (denied W README) eqn:Hr.
  - rewrite create_index_on_denied by done. split; [done|]. by intros (_ & ? & _).
  - split.
    + intros Hidx. split_and!; [done..|]. by exists st1.
    + intros (_ & _ & st1' & [= <-] & Hidx). done.
Qed.

(** ** A page that went through *)

Lemma attempt_inr W url filename body :
  attempt W url filename = inr body →
  ∃ r, remote W url = inr r ∧ body = content r ∧
       ¬ (400 ≤ status_code r < 600)%Z.
Proof.
  unfold attempt, fetched. destruct (remote W url) as [e|r]; [done|].
  destruct (Z.leb_spec 400 (status_code r)), (Z.ltb_spec (status_code r) 600);
    cbn; try done;
    destruct (denied W (dirname (file_path_of filename))); try done;
    destruct (denied W (file_path_of filename)); try done;
    intros [= <-]; exists r; split_and!; try done; lia.
Qed.

Lemma attempt_fetched_inl W url filename e :
  fetched W url = inl e → attempt W url filename = inl e.
Proof. unfold attempt. by intros ->. Qed.

(** When [convert_page] returns [True], the server answered with a
    status outside 400 to 599 and the file of the page holds the
    header followed by the Markdown text of the answer; no other file
    is touched. *)
Lemma convert_page_true L W self page_path filename st st' :
  convert_page L W self page_path filename st = (inr true, st') →
  ∃ r, remote W (urljoin L (base_url self) page_path) = inr r ∧
       ¬ (400 ≤ status_code r < 600)%Z ∧
       files st' =
         <[file_path_of filename :=
             page_header filename (urljoin L (base_url self) page_path)
               +:+ markdown_of L self (content r)]> (files st).
Proof.
  intros Hrun.
  destruct (attempt W (urljoin L (base_url self) page_path) filename)
    as [e|c] eqn:Hatt.
  - destruct (convert_page_fail L W self page_path filename e st Hatt)
      as (st1 & Hfail & _). rewrite Hfail in Hrun. discriminate.
  - rewrite (convert_page_ok L W self page_path filename c st Hatt) in Hrun.
    injection Hrun as <-. apply attempt_inr in Hatt as (r & Hr & -> & Hs).
    by exists r.
Qed.

(** * The claims *)

Import SoupFacts IndexFacts.

(** Membership in a list that is written out, and its negation. *)
Ltac listed := repeat constructor.
Ltac not_listed :=
  let H := fresh in
  intros H;
  repeat (apply elem_of_cons in H as [H|H]; [discriminate H|]);
  by apply elem_of_nil in H.

(** ** Extraction *)

(** C1.  When [convert_page] writes a page, the Markdown body in the
    file is rendered from the parsed document with every [nav],
    [aside], [footer], [script] and [style] tag taken out, nested ones
    included: the tree handed to the serialiser is the stripped
    document and holds no such tag at any depth; no object that is
    such a tag or lies inside one (its text in particular) is left in
    that tree; and a document that is the same outside such tags
    gives the same body, so nothing inside them reaches the file.
    The parser, the serialiser and the renderer are those of the
    library [L], whatever they are. *)
Theorem excluded_tags_removed (L : library) (W : world) (self : converter)
    (page_path filename : string) (st st' : state) :
  convert_page L W self page_path filename st = (inr true, st') →
  let url := urljoin L (base_url self) page_path in
  ∃ r body,
    remote W url = inr r ∧
    files st' !! ("shipany_docs/" +:+ filename +:+ ".md")
      = Some (page_header filename url +:+ body) ∧
    let doc := html_parser L (content r) in
    let soup := Soup.soup_of doc in
    let cleaned := Soup.extract soup in
    body = html2text L (h self) (str_soup L (Soup.markup <$> cleaned)) ∧
    Soup.markup <$> cleaned = Soup.strip Soup.excluded doc ∧
    existsb (Soup.has_tag Soup.excluded) (Soup.markup <$> cleaned) = false ∧
    (∀ j k, (j, k) ∈ soup ≫= Soup.removed Soup.excluded →
            j ∉ (cleaned ≫= Soup.objects).*1) ∧
    (∀ doc', Soup.same_outside Soup.excluded doc doc' →
       html2text L (h self)
         (str_soup L (Soup.markup <$> Soup.extract (Soup.soup_of doc'))) = body).
Proof.
  intros Hrun url.
  apply convert_page_true in Hrun as (r & Hr & _ & Hfiles).
  exists r, (markdown_of L self (content r)).
  split; [exact Hr|]. split; [rewrite Hfiles; apply lookup_insert_eq|].
  cbv zeta. split_and!.
  - done.
  - apply markup_extract.
  - rewrite markup_extract. apply has_tag_strip.
  - intros j k. apply removed_not_kept.
  - intros doc' Hsame. unfold markdown_of. rewrite !markup_extract.
    by rewrite (same_outside_strip _ _ _ Hsame).
Qed.

Lemma excluded_tags_removed_witness :
  ∃ body,
    files (convert_page Example.lib Example.up the_converter
             "get-started" "get-started" initial).2
      !! "shipany_docs/get-started.md"
      = Some (page_header "get-started" "https://docs.shipany.ai/get-started"
                +:+ body) ∧
    (3 ∉ (Soup.extract (Soup.soup_of (html_parser Example.lib "skip"))
            ≫= Soup.objects).*1) ∧
    (html2text Example.lib (h the_converter)
       (str_soup Example.lib
          (Soup.markup <$> Soup.extract
                             (Soup.soup_of (html_parser Example.lib "other"))))
     = body).
Proof.
  destruct (excluded_tags_removed Example.lib Example.up the_converter
              "get-started" "get-started" initial
              (convert_page Example.lib Example.up the_converter
                 "get-started" "get-started" initial).2)
    as (r & body & Hr & Hfile & _ & _ & _ & Hremoved & Hsame).
  { by vm_compute. }
  injection Hr as <-. exists body. split_and!.
  - exact Hfile.
  - apply (Hremoved 3 (Soup.KString "skip")). vm_compute. listed.
  - apply Hsame. cbn.
    apply Soup.same_tag; [not_listed| |constructor].
    apply Soup.same_tag; [not_listed| |constructor].
    apply Soup.same_left; [listed|].
    apply Soup.same_right; [listed|].
    apply Soup.same_tag; [not_listed|repeat constructor|].
    apply Soup.same_tag; [not_listed|repeat constructor|].
    constructor.
Defined.

(** The renderer is always called with the settings of [__init__]:
    links kept, no wrapping width, Unicode characters as they are. *)
Lemma renderer_settings (L : library) (content : string) :
  markdown_of L the_converter content =
  html2text L {| ignore_links := false; body_width := 0; unicode_snob := true |}
    (str_soup L (Soup.strip Soup.excluded (html_parser L content))).
Proof. unfold markdown_of. by rewrite markup_extract. Qed.

(** ** Fetching *)

(** C2, as the code has it.  The fetching step hands back the body of
    the response exactly when the status is outside 400 to 599: for
    every 2xx status, and also for a status such as 304 that is
    neither a success nor an error.  For every 4xx and 5xx status and
    for a failure of the connection or a timeout it ends with an
    exception, and [convert_page] then returns [False]. *)
Theorem fetch_by_status (L : library) (W : world) (self : converter)
    (page_path filename : string) (st : state) :
  let url := urljoin L (base_url self) page_path in
  (∀ r, remote W url = inr r →
        ((fetch W url st).1 = inr (content r) ↔ ¬ (400 ≤ status_code r < 600)%Z) ∧
        ((200 ≤ status_code r < 300)%Z → (fetch W url st).1 = inr (content r)) ∧
        ((400 ≤ status_code r < 600)%Z →
         (fetch W url st).1 = inl (HTTPError (status_code r)) ∧
         (convert_page L W self page_path filename st).1 = inr false)) ∧
  (∀ e, remote W url = inl e →
        (fetch W url st).1 = inl e ∧
        (convert_page L W self page_path filename st).1 = inr false).
Proof.
  intros url. split.
  - intros r Hr. rewrite fetch_run. cbn [fst].
    assert (Hbad : (400 ≤ status_code r < 600)%Z →
                   fetched W url = inl (HTTPError (status_code r))).
    { intros Hs. unfold fetched. rewrite Hr.
      destruct (Z.leb_spec 400 (status_code r)), (Z.ltb_spec (status_code r) 600);
        cbn; try done; lia. }
    assert (Hgood : ¬ (400 ≤ status_code r < 600)%Z →
                    fetched W url = inr (content r)).
    { intros Hs. unfold fetched. rewrite Hr.
      destruct (Z.leb_spec 400 (status_code r)), (Z.ltb_spec (status_code r) 600);
        cbn; try done; lia. }
    split_and!.
    + split; [|exact Hgood]. intros Hok Hs. rewrite (Hbad Hs) in Hok. done.
    + intros Hs. apply Hgood. lia.
    + intros Hs. split; [by apply Hbad|].
      destruct (convert_page_fail L W self page_path filename
                  (HTTPError (status_code r)) st) as (st' & -> & _); [|done].
      by apply attempt_fetched_inl, Hbad.
  - intros e He. rewrite fetch_run. cbn [fst].
    assert (Hf : fetched W url = inl e) by (unfold fetched; by rewrite He).
    split; [done|].
    destruct (convert_page_fail L W self page_path filename e st)
      as (st' & -> & _); [|done].
    by apply attempt_fetched_inl.
Qed.

Lemma fetch_by_status_witness :
  (fetch Example.flaky "https://docs.shipany.ai/b" initial).1 = inl (HTTPError 404) ∧
  (convert_page Example.lib Example.flaky the_converter "b" "b" initial).1 = inr false ∧
  (fetch Example.flaky "https://docs.shipany.ai/c" initial).1 = inl ConnectionError ∧
  (fetch Example.flaky "https://docs.shipany.ai/a" initial).1 = inr "skip".
Proof.
  destruct (fetch_by_status Example.lib Example.flaky the_converter "b" "b" initial)
    as [Hb _].
  destruct (Hb {| status_code := 404; content := "Not Found" |} eq_refl)
    as (_ & _ & Hbad).
  destruct (fetch_by_status Example.lib Example.flaky the_converter "c" "c" initial)
    as [_ Hc].
  destruct (fetch_by_status Example.lib Example.flaky the_converter "a" "a" initial)
    as [Ha _].
  destruct (Ha {| status_code := 200; content := "skip" |} eq_refl)
    as (_ & Hgood & _).
  split_and!.
  - apply Hbad. cbn. lia.
  - apply Hbad. cbn. lia.
  - apply (Hc ConnectionError eq_refl).
  - apply Hgood. cbn. lia.
Defined.

(** The claim as it stands fails on a 304: the status is not a 2xx,
    and yet the body comes back, the page is written and
    [convert_page] returns [True]. *)
Lemma fetch_not_modified_returns :
  remote Example.not_modified "https://docs.shipany.ai/get-started"
    = inr {| status_code := 304; content := "cached" |} ∧
  ¬ (200 ≤ 304 < 300)%Z ∧
  (fetch Example.not_modified "https://docs.shipany.ai/get-started" initial).1
    = inr "cached" ∧
  (convert_page Example.lib Example.not_modified the_converter
     "get-started" "get-started" initial).1 = inr true.
Proof. split_and!; [done|lia|done|by vm_compute]. Qed.

(** ** Failures stay with their page *)

(** C3.  Whatever pages fail, the loop of [convert_all] ends normally:
    the count of failures is the number of pages whose conversion
    meets an exception, every page of the catalogue is requested, in
    order, the later ones too; and the index that [create_index] writes
    afterwards holds the link of every entry and is the same text in
    any world, whatever the fetches did. *)
Theorem failures_are_isolated (L : library) (W : world) (self : converter)
    (pages : list (string * string)) (st : state) :
  (∃ st', convert_all_loop L W self pages st =
            (inr (List.length (List.filter (page_ok L W self) pages),
                  List.length (List.filter (λ e, negb (page_ok L W self e)) pages)),
             st') ∧
          requests st' = requests st ++ (url_of L self <$> pages)) ∧
  (∀ entry, entry ∈ pages →
     Index.Item (Index.title_of entry.2) entry.2
       ∈ Index.index_blocks EmptyString pages) ∧
  (∀ W' st0, denied W' README = false →
     ∃ st1, create_index_on W' pages st0 = (inr (), st1) ∧
            files st1 !! README =
              Some (Index.index_header
                      +:+ Index.render (Index.index_blocks EmptyString pages))).
Proof.
  split_and!.
  - destruct (for_in_convert_all L W self pages 0 0 st)
      as (st' & Hrun & _ & Hreq & _).
    exists st'. split; [exact Hrun|exact Hreq].
  - intros entry Hin. by apply item_in_index_blocks.
  - intros W' st0 Hd.
    destruct (create_index_on_run W' pages st0 Hd) as (st1 & Hrun & Hfiles).
    exists st1. split; [exact Hrun|].
    by rewrite Hfiles, lookup_insert_eq, index_content_blocks.
Qed.

Lemma failures_are_isolated_witness :
  Index.Item "C" "c" ∈ Index.index_blocks EmptyString Example.abc ∧
  ∃ st1, create_index_on Example.flaky Example.abc initial = (inr (), st1) ∧
         files st1 !! README =
           Some (Index.index_header
                   +:+ Index.render (Index.index_blocks EmptyString Example.abc)).
Proof.
  destruct (failures_are_isolated Example.lib Example.flaky the_converter
              Example.abc initial) as (_ & Hitem & Hindex).
  split.
  - apply (Hitem ("c", "c")%string). vm_compute. repeat constructor.
  - apply Hindex. reflexivity.
Defined.

(** ** The written page *)

(** C4.  When [convert_page] returns [True] for the stem [filename],
    the file [shipany_docs/<filename>.md] holds exactly: the heading
    line made of the stem with every slash replaced by [ - ] and then
    title-cased, an empty line, the line of the source URL, an empty
    line, and the Markdown body of the fetched page.  The text is
    stored in UTF-8: the label of the source line is the encoding of
    U+6765 U+6E90, a colon and a space. *)
Theorem page_file_contents (L : library) (W : world) (self : converter)
    (page_path filename : string) (st st' : state) :
  convert_page L W self page_path filename st = (inr true, st') →
  let url := urljoin L (base_url self) page_path in
  ∃ r, remote W url = inr r ∧
       files st' !! ("shipany_docs/" +:+ filename +:+ ".md") =
         Some ("# " +:+ PyStr.title (PyStr.replace "/" " - " filename)
                 +:+ PyStr.LF +:+ PyStr.LF
                 +:+ "来源: " +:+ url +:+ PyStr.LF +:+ PyStr.LF
                 +:+ markdown_of L self (content r)) ∧
       "来源: " = PyStr.utf8_encode [26469; 28304; 58; 32]%N.
Proof.
  intros Hrun url.
  apply convert_page_true in Hrun as (r & Hr & _ & Hfiles).
  exists r. split_and!; [exact Hr| |done].
  change ("shipany_docs/" +:+ filename +:+ ".md") with (file_path_of filename).
  rewrite Hfiles, lookup_insert_eq. f_equal. unfold page_header. fold url.
  by rewrite !append_assoc.
Qed.

Lemma page_file_contents_witness :
  ∃ r, remote Example.up "https://docs.shipany.ai/guide/faq" = inr r ∧
       files (convert_page Example.lib Example.up the_converter
                "guide/faq" "guide/faq" initial).2
         !! "shipany_docs/guide/faq.md" =
         Some ("# Guide - Faq" +:+ PyStr.LF +:+ PyStr.LF
                 +:+ "来源: https://docs.shipany.ai/guide/faq"
                 +:+ PyStr.LF +:+ PyStr.LF
                 +:+ markdown_of Example.lib the_converter (content r)) ∧
       "来源: " = PyStr.utf8_encode [26469; 28304; 58; 32]%N.
Proof.
  apply (page_file_contents Example.lib Example.up the_converter
           "guide/faq" "guide/faq" initial).
  by vm_compute.
Defined.

(** ** The two counts *)

(** C9.  [convert_page] always returns, with [True] or with [False],
    and never lets an exception through; so after the loop of
    [convert_all] every entry is counted once, in [successful] when
    its conversion went through and in [failed] otherwise, and the two
    counts add up to the size of the catalogue.  These are the numbers
    that [convert_all] prints last. *)
Theorem counts_add_up (L : library) (W : world) (self : converter)
    (pages : list (string * string)) (st : state) :
  (∀ page_path filename st0,
     ∃ st1, convert_page L W self page_path filename st0
              = (inr (page_ok L W self (page_path, filename)), st1)) ∧
  ∃ successful failed st' st'',
    convert_all_loop L W self pages st = (inr (successful, failed), st') ∧
    successful = List.length (List.filter (page_ok L W self) pages) ∧
    failed = List.length (List.filter (λ e, negb (page_ok L W self e)) pages) ∧
    successful + failed = List.length pages ∧
    convert_all_on L W self pages st = (inr (), st'') ∧
    last (stdout st'') = Some (Summary successful failed).
Proof.
  split.
  - intros page_path filename st0. unfold page_ok, url_of. cbn [fst snd].
    destruct (attempt W (urljoin L (base_url self) page_path) filename)
      as [e|c] eqn:Hatt.
    + destruct (convert_page_fail L W self page_path filename e st0 Hatt)
        as (st1 & Hfail & _). by exists st1.
    + rewrite (convert_page_ok L W self page_path filename c st0 Hatt). eauto.
  - destruct (for_in_convert_all L W self pages 0 0 st) as (st' & Hrun & _).
    destruct (convert_all_on_run L W self pages st) as (st'' & Hon & _ & _ & Hout).
    eexists _, _, st', st''. split_and!; [exact Hrun|done|done| |exact Hon|exact Hout].
    clear. induction pages as [|entry pages IH]; [done|].
    cbn. destruct (page_ok L W self entry); cbn; lia.
Qed.

(** ** The index *)

(** C5.  The text of [create_index] is its fixed opening followed by
    the blocks of the catalogue in catalogue order: before the item of
    an entry comes a title-cased heading exactly when the section of
    the entry (the part of the stem before its first slash, or the
    fallback label when the stem has no slash) differs from the
    section of the entry before, the first entry being compared with
    the empty section; and every entry gives one item, whose title is
    the last part of the stem with hyphens turned into spaces and
    title-cased and whose target is [./<stem>.md].  For the stems
    [a/x], [a/y], [b/z] the blocks are the heading [A] with two items
    and the heading [B] with one. *)
Theorem index_groups_by_section :
  (∀ pages,
     Index.index_content pages =
     Index.index_header +:+ Index.render (Index.index_blocks EmptyString pages)) ∧
  (∀ previous entry pages,
     Index.headings (Index.index_blocks previous (entry :: pages)) =
     (if String.eqb (Index.section_of entry.2) previous then []
      else [PyStr.title (Index.section_of entry.2)])
       ++ Index.headings (Index.index_blocks (Index.section_of entry.2) pages)) ∧
  (∀ previous pages,
     Index.items (Index.index_blocks previous pages) =
     (λ e, (PyStr.title (PyStr.replace "-" " " (PyStr.final (PyStr.split "/" e.2))),
            e.2)) <$> pages) ∧
  (∀ filename,
     Index.section_of filename =
     if PyStr.contains "/" filename then PyStr.first (PyStr.split "/" filename)
     else "主要文档") ∧
  (∀ text, Index.render_block (Index.Heading text) =
           PyStr.LF +:+ "## " +:+ text +:+ PyStr.LF +:+ PyStr.LF) ∧
  (∀ text filename,
     Index.render_block (Index.Item text filename) =
     "- [" +:+ text +:+ "](./" +:+ filename +:+ ".md)" +:+ PyStr.LF) ∧
  Index.index_blocks EmptyString Example.abz =
    [Index.Heading "A"; Index.Item "X" "a/x"; Index.Item "Y" "a/y";
     Index.Heading "B"; Index.Item "Z" "b/z"] ∧
  Index.index_content Example.abz =
    Index.index_header
      +:+ PyStr.LF +:+ "## A" +:+ PyStr.LF +:+ PyStr.LF
      +:+ "- [X](./a/x.md)" +:+ PyStr.LF
      +:+ "- [Y](./a/y.md)" +:+ PyStr.LF
      +:+ PyStr.LF +:+ "## B" +:+ PyStr.LF +:+ PyStr.LF
      +:+ "- [Z](./b/z.md)" +:+ PyStr.LF.
Proof.
  split_and!.
  - apply index_content_blocks.
  - apply headings_index_blocks_cons.
  - intros previous pages. apply items_index_blocks.
  - done.
  - done.
  - done.
  - by vm_compute.
  - by vm_compute.
Qed.

(** C10.  Headings go with runs of neighbouring entries, not with
    section names.  In the index of the program's own catalogue the
    fallback heading comes twice: once before [get-started] and once
    more before [feedback], [affiliate] and [emails], which follow the
    payment pages; and a catalogue that returns to a section it has
    left gets the heading of that section again. *)
Theorem fallback_heading_repeats :
  Index.headings (Index.index_blocks EmptyString get_all_pages) =
    ["主要文档"; "Guide"; "Features"; "Payment"; "主要文档"; "User-Console";
     "Admin-System"; "Ai-Integrations"; "Components"; "Deploy"; "Tutorials"] ∧
  List.length
    (List.filter (String.eqb "## 主要文档")
       (PyStr.lines (Index.index_content get_all_pages))) = 2 ∧
  (Index.section_of "get-started" = "主要文档" ∧
   Index.section_of "payment/creem" = "payment" ∧
   Index.section_of "feedback" = "主要文档" ∧
   Index.section_of "affiliate" = "主要文档" ∧
   Index.section_of "emails" = "主要文档") ∧
  Index.headings
    (Index.index_blocks EmptyString [("a/x", "a/x"); ("b/y", "b/y"); ("a/z", "a/z")])
    = ["A"; "B"; "A"].
Proof. split_and!; by vm_compute. Qed.

(** ** Two runs *)

(** The file of a page depends on the world only through the reply to
    the URL of the page and through the refusals of the file system. *)
Lemma page_file_same_world L W1 W2 self entry :
  remote W1 (url_of L self entry) = remote W2 (url_of L self entry) →
  (∀ p, denied W1 p = denied W2 p) →
  page_file L W1 self entry = page_file L W2 self entry.
Proof.
  intros Hremote Hdenied. unfold page_file, attempt, fetched.
  by rewrite Hremote, !Hdenied.
Qed.

Lemma page_ok_file L W self entry :
  page_ok L W self entry = true →
  file_path_of entry.2 ∈ (omap (page_file L W self) [entry]).*1.
Proof.
  unfold page_ok. cbn. unfold page_file.
  destruct (attempt W (url_of L self entry) entry.2); [done|]. intros _. left.
Qed.

(** C6.  Take two complete runs of the program in which every URL of
    the catalogue gets the same reply (the same bytes, in particular)
    and the file system refuses the same paths, started from any two
    states of the file system, the second possibly the one the first
    run left.  After them the file of every converted entry holds the
    same text, and the index file holds the same text, that of
    [create_index]. *)
Theorem two_runs_same_files (L : library) (W1 W2 : world)
    (pages : list (string * string)) (st1 st2 st1' : state) :
  (∀ entry, entry ∈ pages →
     remote W1 (url_of L the_converter entry)
       = remote W2 (url_of L the_converter entry)) →
  (∀ p, denied W1 p = denied W2 p) →
  main_on L W1 pages st1 = (inr (), st1') →
  ∃ st2', main_on L W2 pages st2 = (inr (), st2') ∧
    (∀ entry, entry ∈ pages → page_ok L W1 the_converter entry = true →
       files st1' !! ("shipany_docs/" +:+ entry.2 +:+ ".md")
         = files st2' !! ("shipany_docs/" +:+ entry.2 +:+ ".md") ∧
       is_Some (files st1' !! ("shipany_docs/" +:+ entry.2 +:+ ".md"))) ∧
    files st1' !! "shipany_docs/README.md" = Some (Index.index_content pages) ∧
    files st2' !! "shipany_docs/README.md" = Some (Index.index_content pages).
Proof.
  intros Hremote Hdenied Hrun1.
  apply main_on_complete in Hrun1 as (Hd1 & Hr1 & sa & Hall1 & Hidx1).
  destruct (convert_all_on_run L W1 the_converter pages
              {| files := files st1; dirs := {["shipany_docs"]} ∪ dirs st1;
                 requests := requests st1; stdout := stdout st1;
                 slept := slept st1 |}) as (sa' & Hall1' & Hfiles1 & _).
  rewrite Hall1 in Hall1'. injection Hall1' as <-. cbn [files] in Hfiles1.
  destruct (create_index_on_run W1 pages sa Hr1) as (sb & Hidx1' & Hfiles1').
  rewrite Hidx1 in Hidx1'. injection Hidx1' as <-.
  destruct (convert_all_on_run L W2 the_converter pages
              {| files := files st2; dirs := {["shipany_docs"]} ∪ dirs st2;
                 requests := requests st2; stdout := stdout st2;
                 slept := slept st2 |}) as (sc & Hall2 & Hfiles2 & _).
  cbn [files] in Hfiles2.
  assert (Hr2 : denied W2 README = false) by (by rewrite <- Hdenied).
  destruct (create_index_on_run W2 pages sc Hr2) as (st2' & Hidx2 & Hfiles2').
  exists st2'. split_and!.
  - apply main_on_complete. split_and!; [by rewrite <- Hdenied|done|].
    exists sc. by split.
  - intros entry Hin Hok.
    change ("shipany_docs/" +:+ entry.2 +:+ ".md") with (file_path_of entry.2).
    rewrite Hfiles1', Hfiles2', Hfiles1, Hfiles2.
    destruct (decide (README = file_path_of entry.2)) as [<-|Hne].
    { rewrite !lookup_insert_eq. eauto. }
    rewrite !lookup_insert_ne by done.
    assert (omap (page_file L W2 the_converter) pages
            = omap (page_file L W1 the_converter) pages) as ->.
    { apply SoupFacts.omap_pointwise, Forall_forall. intros e He.
      symmetry. apply page_file_same_world; [by apply Hremote|done]. }
    apply store_lookup_in.
    apply list_elem_of_fmap. apply page_ok_file in Hok.
    apply list_elem_of_fmap in Hok as (f & Hpath & Hf).
    exists f. split; [done|]. apply list_elem_of_omap.
    apply list_elem_of_omap in Hf as (e & ->%list_elem_of_singleton & Hf). eauto.
  - by rewrite Hfiles1', lookup_insert_eq.
  - by rewrite Hfiles2', lookup_insert_eq.
Qed.

Lemma two_runs_same_files_witness :
  let first_run := (main_on Example.lib Example.up Example.abz initial).2 in
  ∃ st2', main_on Example.lib Example.up Example.abz first_run = (inr (), st2') ∧
    (∀ entry, entry ∈ Example.abz →
       page_ok Example.lib Example.up the_converter entry = true →
       files first_run !! ("shipany_docs/" +:+ entry.2 +:+ ".md")
         = files st2' !! ("shipany_docs/" +:+ entry.2 +:+ ".md") ∧
       is_Some (files first_run !! ("shipany_docs/" +:+ entry.2 +:+ ".md"))) ∧
    files first_run !! "shipany_docs/README.md"
      = Some (Index.index_content Example.abz) ∧
    files st2' !! "shipany_docs/README.md"
      = Some (Index.index_content Example.abz).
Proof.
  intros first_run.
  apply (two_runs_same_files Example.lib Example.up Example.up Example.abz
           initial first_run first_run).
  - reflexivity.
  - reflexivity.
  - by vm_compute.
Defined.

(** ** Paths *)

(** C8.  The file of an entry with stem [s] is
    [shipany_docs/<s>.md] and nothing else: after the loop of
    [convert_all] the files on disk are those that were there plus one
    at that path for every converted entry, and walking the catalogue
    in another order leaves files at the same paths.  The index goes
    to [shipany_docs/README.md] and to no other path. *)
Theorem output_paths (L : library) (W : world) (self : converter)
    (pages pages' : list (string * string)) (st : state) :
  pages ≡ₚ pages' →
  ∃ counts counts' st1 st1',
    convert_all_loop L W self pages st = (inr counts, st1) ∧
    convert_all_loop L W self pages' st = (inr counts', st1') ∧
    dom (files st1) =
      dom (files st)
        ∪ list_to_set ((λ e, "shipany_docs/" +:+ e.2 +:+ ".md")
                         <$> List.filter (page_ok L W self) pages) ∧
    dom (files st1') = dom (files st1) ∧
    (∀ st0, denied W README = false →
       ∃ st2, create_index_on W pages st0 = (inr (), st2) ∧
              dom (files st2) = {["shipany_docs/README.md"]} ∪ dom (files st0)).
Proof.
  intros Hperm.
  destruct (for_in_convert_all L W self pages 0 0 st) as (st1 & Hrun & Hfiles & _).
  destruct (for_in_convert_all L W self pages' 0 0 st) as (st1' & Hrun' & Hfiles' & _).
  eexists _, _, st1, st1'. split_and!; [exact Hrun|exact Hrun'| | |].
  - rewrite Hfiles, dom_store, page_file_paths. done.
  - rewrite Hfiles, Hfiles', !dom_store, !page_file_paths. f_equal.
    apply set_eq. intros p. rewrite !elem_of_list_to_set, !list_elem_of_fmap.
    split; intros (e & -> & He); exists e; (split; [done|]);
      apply list_elem_of_In, filter_In; apply list_elem_of_In, filter_In in He;
      destruct He as [He Hok]; (split; [|done]); apply list_elem_of_In;
      apply list_elem_of_In in He; [by rewrite Hperm|by rewrite <- Hperm].
  - intros st0 Hd. destruct (create_index_on_run W pages st0 Hd) as (st2 & Hidx & Hf).
    exists st2. split; [done|]. by rewrite Hf, dom_insert_L.
Qed.

Lemma output_paths_witness :
  ∃ counts counts' st1 st1',
    convert_all_loop Example.lib Example.flaky the_converter Example.abc initial
      = (inr counts, st1) ∧
    convert_all_loop Example.lib Example.flaky the_converter (rev Example.abc) initial
      = (inr counts', st1') ∧
    dom (files st1) =
      dom (files initial)
        ∪ list_to_set ((λ e, "shipany_docs/" +:+ e.2 +:+ ".md")
                         <$> List.filter (page_ok Example.lib Example.flaky the_converter)
                               Example.abc) ∧
    dom (files st1') = dom (files st1) ∧
    (∀ st0, denied Example.flaky README = false →
       ∃ st2, create_index_on Example.flaky Example.abc st0 = (inr (), st2) ∧
              dom (files st2) = {["shipany_docs/README.md"]} ∪ dom (files st0)).
Proof.
  apply (output_paths Example.lib Example.flaky the_converter
           Example.abc (rev Example.abc) initial).
  apply Permutation_rev.
Defined.

(** * Further properties *)

(** ** What one page does to the state *)

(** X1.  [convert_page] sends exactly one GET, for the joined URL,
    whether the page goes through or not: a failure is not retried
    and a page that cannot be written is still fetched once. *)
Theorem one_request_per_page (L : library) (W : world) (self : converter)
    (page_path filename : string) (st : state) :
  requests (convert_page L W self page_path filename st).2
  = requests st ++ [urljoin L (base_url self) page_path].
Proof.
  destruct (attempt W (urljoin L (base_url self) page_path) filename)
    as [e|c] eqn:Hatt.
  - destruct (convert_page_fail L W self page_path filename e st Hatt)
      as (st' & -> & _ & Hreq & _). exact Hreq.
  - by rewrite (convert_page_ok L W self page_path filename c st Hatt).
Qed.



(** X3.  When the page is not delivered (an exception of the request,
    or a status from 400 to 599), [convert_page] returns [False]
    before anything is done on disk: no directory is made, no file is
    opened, and the last line printed is the failure with that
    exception. *)
Theorem failed_fetch_leaves_disk (L : library) (W : world) (self : converter)
    (page_path filename : string) (st : state) (e : exn) :
  fetched W (urljoin L (base_url self) page_path) = inl e →
  ∃ st', convert_page L W self page_path filename st = (inr false, st') ∧
         files st' = files st ∧ dirs st' = dirs st ∧
         last (stdout st') = Some (Failed (urljoin L (base_url self) page_path) e).
Proof.
  intros Hf. unfold convert_page, convert_page_try, try_except.
  unfold bind at 1. cbn. unfold bind at 1. rewrite fetch_run, Hf.
  eexists. split; [reflexivity|]. cbn. split_and!; [done|done|].
  by rewrite last_snoc.
Qed.

Lemma failed_fetch_leaves_disk_witness :
  ∃ st', convert_page Example.lib Example.flaky the_converter "c" "c" initial
           = (inr false, st') ∧
         files st' = files initial ∧ dirs st' = dirs initial ∧
         last (stdout st')
           = Some (Failed "https://docs.shipany.ai/c" ConnectionError).
Proof.
  apply (failed_fetch_leaves_disk Example.lib Example.flaky the_converter
           "c" "c" initial ConnectionError).
  reflexivity.
Defined.

(** X4.  A page that goes through was written into a directory that
    [convert_page] asked for first: the directory part of the file
    path is among the directories made, and neither that directory nor
    the file was refused. *)
Theorem page_directory_made (L : library) (W : world) (self : converter)
    (page_path filename : string) (st st' : state) :
  convert_page L W self page_path filename st = (inr true, st') →
  dirname ("shipany_docs/" +:+ filename +:+ ".md") ∈ dirs st' ∧
  denied W (dirname ("shipany_docs/" +:+ filename +:+ ".md")) = false ∧
  denied W ("shipany_docs/" +:+ filename +:+ ".md") = false.
Proof.
  intros Hrun.
  change ("shipany_docs/" +:+ filename +:+ ".md") with (file_path_of filename).
  destruct (attempt W (urljoin L (base_url self) page_path) filename)
    as [e|c] eqn:Hatt.
  - destruct (convert_page_fail L W self page_path filename e st Hatt)
      as (st1 & Hfail & _). rewrite Hfail in Hrun. discriminate.
  - rewrite (convert_page_ok L W self page_path filename c st Hatt) in Hrun.
    injection Hrun as <-. cbn [dirs]. split; [set_solver|].
    unfold attempt in Hatt. destruct (fetched W _); [done|].
    destruct (denied W (dirname (file_path_of filename))); [done|].
    by destruct (denied W (file_path_of filename)).
Qed.

Lemma page_directory_made_witness :
  dirname ("shipany_docs/" +:+ "guide/faq" +:+ ".md")
    ∈ dirs (convert_page Example.lib Example.up the_converter
              "guide/faq" "guide/faq" initial).2 ∧
  denied Example.up (dirname ("shipany_docs/" +:+ "guide/faq" +:+ ".md")) = false ∧
  denied Example.up ("shipany_docs/" +:+ "guide/faq" +:+ ".md") = false.
Proof.
  apply (page_directory_made Example.lib Example.up the_converter
           "guide/faq" "guide/faq" initial).
  by vm_compute.
Defined.

(** ** What the loop prints and how long it sleeps *)

Section Loop.
Variable L : library.
Variable W : world.
Variable self : converter.

Lemma convert_page_stdout page_path filename st :
  stdout (convert_page L W self page_path filename st).2
  = stdout st ++ page_lines L W self (page_path, filename).
Proof.
  unfold page_lines, url_of. cbn [fst snd].
  destruct (attempt W (urljoin L (base_url self) page_path) filename)
    as [e|c] eqn:Hatt.
  - destruct (convert_page_fail L W self page_path filename e st Hatt)
      as (st' & -> & _ & _ & Hout & _). cbn [snd].
    by rewrite Hout, <- (assoc_L (++)).
  - rewrite (convert_page_ok L W self page_path filename c st Hatt).
    cbn [snd stdout]. by rewrite <- (assoc_L (++)).
Qed.

Lemma convert_page_returns page_path filename st :
  ∃ st1, convert_page L W self page_path filename st
           = (inr (page_ok L W self (page_path, filename)), st1).
Proof.
  unfold page_ok, url_of. cbn [fst snd].
  destruct (attempt W (urljoin L (base_url self) page_path) filename)
    as [e|c] eqn:Hatt.
  - destruct (convert_page_fail L W self page_path filename e st Hatt)
      as (st1 & Hfail & _). by exists st1.
  - rewrite (convert_page_ok L W self page_path filename c st Hatt). eauto.
Qed.

Lemma convert_all_body_stdout counts entry st :
  stdout (convert_all_body L W self counts entry st).2
  = stdout st ++ page_lines L W self entry.
Proof.
  destruct counts as [successful failed], entry as [page_path filename].
  pose proof (convert_page_stdout page_path filename st) as Hout.
  destruct (convert_page_returns page_path filename st) as (st1 & Hrun).
  unfold convert_all_body, bind. rewrite Hrun in Hout |- *.
  by destruct (page_ok L W self (page_path, filename)).
Qed.

Lemma for_in_convert_all_stdout pages : ∀ counts st,
  stdout (for_in pages counts (convert_all_body L W self) st).2
  = stdout st ++ (pages ≫= page_lines L W self).
Proof.
  induction pages as [|entry pages IH]; intros counts st.
  - cbn. by rewrite app_nil_r.
  - change (for_in (entry :: pages) counts (convert_all_body L W self) st)
      with (match convert_all_body L W self counts entry st with
            | (inl e, st') => (inl e, st')
            | (inr vars, st') => for_in pages vars (convert_all_body L W self) st'
            end).
    pose proof (convert_all_body_stdout counts entry st) as Hout.
    destruct counts as [successful failed].
    destruct (convert_all_body_run L W self successful failed entry st)
      as (st1 & Hrun & _).
    rewrite Hrun in Hout |- *. cbn [snd] in Hout.
    rewrite IH, Hout. cbn. by rewrite <- (assoc_L (++)).
Qed.

End Loop.

(** X5.  [convert_all] sleeps one second after every entry, converted
    or not, so a run over a catalogue sleeps as many seconds as the
    catalogue has entries. *)
Theorem one_second_per_entry (L : library) (W : world) (self : converter)
    (pages : list (string * string)) (st : state) :
  slept (convert_all_on L W self pages st).2 = slept st + List.length pages.
Proof.
  unfold convert_all_on, convert_all_loop, bind.
  destruct (for_in_convert_all L W self pages 0 0 st)
    as (st1 & -> & _ & _ & Hslept).
  exact Hslept.
Qed.

(** X6.  What [convert_all] prints: for every entry, in catalogue
    order, the line that announces its URL and then either the line
    of the saved file or the line of the failure with the exception
    that stopped the page; after the last entry, the two counts. *)
Theorem convert_all_output (L : library) (W : world) (self : converter)
    (pages : list (string * string)) (st : state) :
  stdout (convert_all_on L W self pages st).2
  = stdout st
      ++ (pages ≫= page_lines L W self)
      ++ [Summary (List.length (List.filter (page_ok L W self) pages))
                  (List.length (List.filter (λ e, negb (page_ok L W self e)) pages))].
Proof.
  pose proof (for_in_convert_all_stdout L W self pages (0, 0) st) as Hout.
  unfold convert_all_on, convert_all_loop, bind.
  destruct (for_in_convert_all L W self pages 0 0 st) as (st1 & Hrun & _).
  rewrite Hrun in Hout |- *. cbn in Hout |- *.
  by rewrite Hout, <- (assoc_L (++)).
Qed.

(** ** How a run ends *)

(** X7.  When the output folder cannot be made, the program stops
    with that error at once: no page is requested, nothing is written
    and nothing is printed. *)
Theorem no_output_folder_no_run (L : library) (W : world)
    (pages : list (string * string)) (st : state) :
  denied W "shipany_docs" = true →
  main_on L W pages st = (inl (OSError "shipany_docs"), st).
Proof.
  intros Hd. unfold main_on, init. unfold bind at 1. unfold bind at 1.
  unfold makedirs. by rewrite Hd.
Qed.

Lemma no_output_folder_no_run_witness :
  main_on Example.lib
    {| remote := λ _, Example.reply 200 "skip";
       denied := String.eqb "shipany_docs" |}
    Example.abz initial
  = (inl (OSError "shipany_docs"), initial).
Proof. apply no_output_folder_no_run. reflexivity. Defined.

(** X8.  When the index file cannot be opened, the program ends with
    that error, which nothing catches, but only after the whole
    catalogue has been walked: every page was requested and the files
    of the converted pages are on disk. *)
Theorem index_failure_comes_last (L : library) (W : world)
    (pages : list (string * string)) (st : state) :
  denied W "shipany_docs" = false →
  denied W "shipany_docs/README.md" = true →
  ∃ st', main_on L W pages st = (inl (OSError "shipany_docs/README.md"), st') ∧
         files st' = store (files st) (omap (page_file L W the_converter) pages) ∧
         requests st' = requests st ++ (url_of L the_converter <$> pages).
Proof.
  intros Hd Hr. unfold main_on, init. unfold bind at 1. unfold bind at 1.
  unfold makedirs. rewrite Hd. unfold ret. unfold bind at 1. fold the_converter.
  destruct (convert_all_on_run L W the_converter pages
              {| files := files st; dirs := {["shipany_docs"]} ∪ dirs st;
                 requests := requests st; stdout := stdout st; slept := slept st |})
    as (st1 & -> & Hfiles & Hreq & _).
  rewrite create_index_on_denied by exact Hr. by exists st1.
Qed.

Lemma index_failure_comes_last_witness :
  let W := {| remote := λ _, Example.reply 200 "skip";
              denied := String.eqb "shipany_docs/README.md" |} in
  ∃ st', main_on Example.lib W Example.abz initial
           = (inl (OSError "shipany_docs/README.md"), st') ∧
         files st' = store (files initial)
                       (omap (page_file Example.lib W the_converter) Example.abz) ∧
         requests st' = requests initial
                          ++ (url_of Example.lib the_converter <$> Example.abz).
Proof.
  intros W. apply (index_failure_comes_last Example.lib W Example.abz initial);
    reflexivity.
Defined.

(** X9.  Whether the program runs to its end depends on two paths
    only: it does exactly when neither the output folder nor the index
    file is refused.  No failure of a page, of the server or of a page
    file stops it. *)
Theorem run_completes_iff (L : library) (W : world)
    (pages : list (string * string)) (st : state) :
  (main_on L W pages st).1 = inr () ↔
  denied W "shipany_docs" = false ∧ denied W "shipany_docs/README.md" = false.
Proof.
  split.
  - intros Hrun. destruct (main_on L W pages st) as [r st'] eqn:Hmain.
    cbn in Hrun. subst r. apply main_on_complete in Hmain as (? & ? & _). done.
  - intros [Hd Hr].
    destruct (convert_all_on_run L W the_converter pages
                {| files := files st; dirs := {["shipany_docs"]} ∪ dirs st;
                   requests := requests st; stdout := stdout st; slept := slept st |})
      as (st1 & Hall & _).
    destruct (create_index_on_run W pages st1 Hr) as (st2 & Hidx & _).
    assert (main_on L W pages st = (inr (), st2)) as ->; [|done].
    apply main_on_complete. split_and!; [done|done|]. by exists st1.
Qed.

(** ** Stems and paths *)

Lemma length_append (a b : string) :
  String.length (a +:+ b) = String.length a + String.length b.
Proof.
  induction a as [|x a IH]; [done|].
  change (S (String.length (a +:+ b)) = S (String.length a + String.length b)).
  by rewrite IH.
Qed.

Lemma append_inj_r (a b x : string) : a +:+ x = b +:+ x → a = b.
Proof.
  revert b. induction a as [|c a IH]; intros [|d b] Heq.
  - done.
  - apply (f_equal String.length) in Heq.
    rewrite !length_append in Heq. cbn in Heq. lia.
  - apply (f_equal String.length) in Heq.
    rewrite !length_append in Heq. cbn in Heq. lia.
  - change (String c (a +:+ x) = String d (b +:+ x)) in Heq.
    injection Heq as -> Heq. by rewrite (IH b Heq).
Qed.

Lemma file_path_of_inj (s t : string) : file_path_of s = file_path_of t → s = t.
Proof.
  unfold file_path_of. intros Heq.
  apply (inj (String.append "shipany_docs/")) in Heq.
  by apply append_inj_r in Heq.
Qed.

(** X10.  The file path tells the stem: two stems are written to the
    same file only when they are equal, and the file of a page is the
    index file only for the stem [README]. *)
Theorem paths_tell_stems (s t : string) :
  ("shipany_docs/" +:+ s +:+ ".md" = "shipany_docs/" +:+ t +:+ ".md" ↔ s = t) ∧
  ("shipany_docs/" +:+ s +:+ ".md" = README ↔ s = "README").
Proof.
  split; (split; [|by intros ->]).
  - apply file_path_of_inj.
  - apply (file_path_of_inj s "README").
Qed.

(** In a list of files at distinct paths, each file is found as it was
    written. *)
Lemma store_lookup_NoDup written : ∀ (fs : gmap string string) p c,
  NoDup written.*1 → (p, c) ∈ written → store fs written !! p = Some c.
Proof.
  induction written as [|f written IH]; intros fs p c Hnd Hin.
  - by apply elem_of_nil in Hin.
  - cbn in Hnd. apply NoDup_cons in Hnd as [Hf Hnd].
    change (store (<[f.1 := f.2]> fs) written !! p = Some c).
    apply elem_of_cons in Hin as [<-|Hin].
    + cbn in Hf |- *. rewrite store_lookup_notin by done.
      apply lookup_insert_eq.
    + by apply IH.
Qed.

Lemma page_file_path L W self entry f :
  page_file L W self entry = Some f → f.1 = file_path_of entry.2.
Proof.
  unfold page_file. destruct (attempt W _ _); [done|]. by intros [= <-].
Qed.

Lemma page_files_NoDup L W self pages :
  NoDup pages.*2 → NoDup (omap (page_file L W self) pages).*1.
Proof.
  induction pages as [|entry pages IH]; cbn; [constructor|].
  intros [Hentry Hnd]%NoDup_cons.
  destruct (page_file L W self entry) as [f|] eqn:Hf; cbn; [|by apply IH].
  apply NoDup_cons. split; [|by apply IH].
  intros Hin. apply Hentry.
  apply list_elem_of_fmap in Hin as (g & Hpath & Hg).
  apply list_elem_of_omap in Hg as (other & Hother & Hg).
  apply page_file_path in Hf, Hg. rewrite Hf, Hg in Hpath.
  apply file_path_of_inj in Hpath. rewrite Hpath.
  by apply list_elem_of_fmap_2.
Qed.

(** X11.  In a catalogue whose stems are pairwise distinct no page
    overwrites another: after [convert_all] the file of every
    converted entry holds the header and the Markdown text of that
    very entry.  The catalogue of the program is such a catalogue. *)
Theorem distinct_stems_keep_pages (L : library) (W : world) (self : converter)
    (pages : list (string * string)) (st : state)
    (entry : string * string) (body : string) :
  NoDup pages.*2 →
  entry ∈ pages →
  attempt W (url_of L self entry) entry.2 = inr body →
  files (convert_all_on L W self pages st).2
    !! ("shipany_docs/" +:+ entry.2 +:+ ".md")
  = Some (page_header entry.2 (url_of L self entry) +:+ markdown_of L self body).
Proof.
  intros Hnd Hin Hatt.
  destruct (convert_all_on_run L W self pages st) as (st' & -> & Hfiles & _).
  cbn [snd]. rewrite Hfiles.
  apply store_lookup_NoDup; [by apply page_files_NoDup|].
  apply list_elem_of_omap. exists entry. split; [done|].
  unfold page_file. by rewrite Hatt.
Qed.

Lemma distinct_stems_keep_pages_witness :
  files (convert_all_on Example.lib Example.up the_converter get_all_pages initial).2
    !! ("shipany_docs/" +:+ "features/email" +:+ ".md")
  = Some (page_header "features/email" "https://docs.shipany.ai/features/email"
            +:+ markdown_of Example.lib the_converter "skip").
Proof.
  apply (distinct_stems_keep_pages Example.lib Example.up the_converter
           get_all_pages initial ("features/email", "features/email")%string "skip").
  - apply (bool_decide_unpack _). by vm_compute.
  - apply (bool_decide_unpack _). by vm_compute.
  - reflexivity.
Defined.

(** ** Sections and titles of stems *)

Module StemFacts.
Import PyStr Index.

Lemma split_cons_eq sep c s :
  split sep (String c s) =
  if Ascii.eqb c sep then EmptyString :: split sep s
  else match split sep s with
       | [] => [String c EmptyString]
       | w :: ws => String c w :: ws
       end.
Proof. done. Qed.

Lemma split_nonempty sep s : ∃ w ws, split sep s = w :: ws.
Proof.
  induction s as [|c s (w & ws & IH)]; [by eexists _, _|].
  rewrite split_cons_eq, IH. destruct (Ascii.eqb c sep); by eexists _, _.
Qed.

(** A text without the separator is one part. *)
Lemma split_without sep s : contains sep s = false → split sep s = [s].
Proof.
  induction s as [|c s IH]; [done|]. cbn [contains].
  intros [Hc Hs]%orb_false_elim. rewrite split_cons_eq, Hc, (IH Hs). done.
Qed.

(** Splitting goes through a separator. *)
Lemma split_app sep a b :
  split sep (a +:+ String sep b) = split sep a ++ split sep b.
Proof.
  induction a as [|c a IH].
  - change (split sep (String sep b) = [EmptyString] ++ split sep b).
    by rewrite split_cons_eq, Ascii.eqb_refl.
  - change (split sep (String c (a +:+ String sep b))
            = split sep (String c a) ++ split sep b).
    rewrite !split_cons_eq, IH. destruct (Ascii.eqb c sep); [done|].
    by destruct (split_nonempty sep a) as (w & ws & ->).
Qed.

Lemma contains_app sep a b :
  contains sep (a +:+ String sep b) = true.
Proof.
  induction a as [|c a IH].
  - change (contains sep (String sep b) = true). cbn [contains].
    by rewrite Ascii.eqb_refl.
  - change (contains sep (String c (a +:+ String sep b)) = true).
    cbn [contains]. rewrite IH. by destruct (Ascii.eqb c sep).
Qed.

Lemma last_app_nonempty {A} (l k : list A) (d : A) :
  k ≠ [] → List.last (l ++ k) d = List.last k d.
Proof.
  intros Hk. induction l as [|x l IH]; [done|].
  cbn [app]. destruct (l ++ k) eqn:Happ; [|done].
  by destruct l, k.
Qed.

(** The section is empty exactly for a stem that begins with a
    slash. *)
Lemma section_of_empty s :
  section_of s = EmptyString ↔ ∃ rest, s = String "/" rest.
Proof.
  unfold section_of. split.
  - destruct (contains "/" s) eqn:Hc; [|done].
    destruct s as [|c s]; [done|]. rewrite split_cons_eq.
    destruct (Ascii.eqb_spec c "/") as [->|Hne]; [eauto|].
    by destruct (split_nonempty "/" s) as (w & ws & ->).
  - intros (rest & ->). cbn [contains]. rewrite Ascii.eqb_refl. cbn [orb].
    by rewrite split_cons_eq, Ascii.eqb_refl.
Qed.

End StemFacts.

(** X12.  The section of a stem is what stands before its first slash
    and the title of its link is made from what stands after its last
    slash; a stem without a slash belongs to the fallback section and
    its whole text makes the title. *)
Theorem section_and_title_of_stem :
  (∀ s, PyStr.contains "/" s = false →
        Index.section_of s = "主要文档" ∧
        Index.title_of s = PyStr.title (PyStr.replace "-" " " s)) ∧
  (∀ a rest, PyStr.contains "/" a = false →
             Index.section_of (a +:+ "/" +:+ rest) = a) ∧
  (∀ d b, PyStr.contains "/" b = false →
          Index.title_of (d +:+ "/" +:+ b)
          = PyStr.title (PyStr.replace "-" " " b)).
Proof.
  split_and!.
  - intros s Hs. unfold Index.section_of, Index.title_of.
    by rewrite Hs, StemFacts.split_without.
  - intros a rest Ha. unfold Index.section_of.
    change (a +:+ "/" +:+ rest) with (a +:+ String "/" rest).
    rewrite StemFacts.contains_app, StemFacts.split_app.
    by rewrite (StemFacts.split_without _ _ Ha).
  - intros d b Hb. unfold Index.title_of.
    change (d +:+ "/" +:+ b) with (d +:+ String "/" b).
    rewrite StemFacts.split_app, (StemFacts.split_without _ _ Hb).
    unfold PyStr.final. by rewrite StemFacts.last_app_nonempty.
Qed.

Lemma section_and_title_of_stem_witness :
  Index.section_of ("features" +:+ "/" +:+ "email/resend") = "features" ∧
  Index.title_of ("features/email" +:+ "/" +:+ "whats-new")
    = PyStr.title (PyStr.replace "-" " " "whats-new") ∧
  Index.section_of "get-started" = "主要文档".
Proof.
  destruct section_and_title_of_stem as (Hplain & Hsection & Htitle).
  split_and!.
  - by apply Hsection.
  - by apply Htitle.
  - by apply Hplain.
Defined.

(** ** More on the index *)

(** X13.  The first entry of the catalogue gets a heading unless its
    stem begins with a slash: such a stem has the empty section, which
    is what the loop of [create_index] starts from, so its item, and
    those of the like entries that follow it, come before any
    heading. *)
Theorem first_entry_heading (entry : string * string)
    (pages : list (string * string)) :
  ((∀ rest, entry.2 ≠ String "/" rest) →
   Index.index_blocks EmptyString (entry :: pages) =
   Index.Heading (PyStr.title (Index.section_of entry.2))
     :: Index.Item (Index.title_of entry.2) entry.2
     :: Index.index_blocks (Index.section_of entry.2) pages) ∧
  (∀ rest, entry.2 = String "/" rest →
   Index.index_blocks EmptyString (entry :: pages) =
   Index.Item (Index.title_of entry.2) entry.2
     :: Index.index_blocks EmptyString pages).
Proof.
  split.
  - intros Hno. cbn [Index.index_blocks].
    destruct (String.eqb_spec (Index.section_of entry.2) EmptyString) as [He|]; [|done].
    apply StemFacts.section_of_empty in He as (rest & He). by destruct (Hno rest).
  - intros rest Hrest. cbn [Index.index_blocks].
    assert (He : Index.section_of entry.2 = EmptyString)
      by (apply StemFacts.section_of_empty; eauto).
    by rewrite He.
Qed.

Lemma first_entry_heading_witness :
  Index.index_blocks EmptyString [("get-started", "get-started"); ("guide/faq", "guide/faq")]
  = [Index.Heading "主要文档"; Index.Item "Get Started" "get-started";
     Index.Heading "Guide"; Index.Item "Faq" "guide/faq"] ∧
  Index.index_blocks EmptyString [("/x", "/x"); ("/y", "/y")]
  = [Index.Item "X" "/x"; Index.Item "Y" "/y"].
Proof.
  destruct (first_entry_heading ("get-started", "get-started")%string
              [("guide/faq", "guide/faq")]%string) as [Hhead _].
  destruct (first_entry_heading ("/x", "/x")%string [("/y", "/y")]%string)
    as [_ Hnone].
  split.
  - rewrite Hhead; [by vm_compute|]. intros rest. discriminate.
  - rewrite (Hnone "x"); [by vm_compute|]. reflexivity.
Defined.

Lemma render_app bs bs' :
  Index.render (bs ++ bs') = Index.render bs +:+ Index.render bs'.
Proof.
  induction bs as [|b bs IH]; [done|].
  change (Index.render_block b +:+ Index.render (bs ++ bs') =
          (Index.render_block b +:+ Index.render bs) +:+ Index.render bs').
  by rewrite IH, append_assoc.
Qed.

Lemma last_cons_default {A} (l : list A) : ∀ x d,
  List.last (x :: l) d = List.last l x.
Proof.
  induction l as [|y l IH]; intros x d; [done|].
  change (List.last (y :: l) d = List.last (y :: l) x). by rewrite !IH.
Qed.

Lemma index_blocks_app l1 : ∀ previous l2,
  Index.index_blocks previous (l1 ++ l2) =
  Index.index_blocks previous l1
    ++ Index.index_blocks
         (List.last ((λ e, Index.section_of e.2) <$> l1) previous) l2.
Proof.
  induction l1 as [|entry l1 IH]; intros previous l2; [done|].
  change (((λ e, Index.section_of e.2) <$> entry :: l1))
    with (Index.section_of entry.2 :: ((λ e, Index.section_of e.2) <$> l1)).
  rewrite last_cons_default.
  cbn [app Index.index_blocks]. rewrite IH, <- (assoc_L (++)). done.
Qed.

(** X14.  Entries added at the end of the catalogue only add text at
    the end of the index: the index of the longer catalogue begins
    with the whole index of the shorter one, and goes on with the
    blocks of the new entries, the first of them compared with the
    section of the last old entry. *)
Theorem index_grows_at_the_end (l1 l2 : list (string * string)) :
  Index.index_content (l1 ++ l2) =
  Index.index_content l1
    +:+ Index.render
          (Index.index_blocks
             (List.last ((λ e, Index.section_of e.2) <$> l1) EmptyString) l2).
Proof.
  rewrite !index_content_blocks, index_blocks_app, render_app.
  by rewrite append_assoc.
Qed.

(** ** Catalogues that keep their sections together *)

Module GroupFacts.
Import PyStr Index.

Lemma drop_while_subset {A} (f : A → bool) (l : list A) x :
  x ∈ drop_while f l → x ∈ l.
Proof.
  induction l as [|y l IH]; [done|]. cbn [drop_while].
  destruct (f y); [|done]. intros Hin. right. by apply IH.
Qed.

Lemma drop_while_keeps (section : string) (l : list string) s :
  s ∈ l → s ≠ section → s ∈ drop_while (String.eqb section) l.
Proof.
  induction l as [|y l IH]; [done|]. cbn [drop_while].
  intros Hin Hne. destruct (String.eqb_spec section y) as [<-|Hy]; [|done].
  apply elem_of_cons in Hin as [->|Hin]; [done|]. by apply IH.
Qed.

(** The headings are the titles of the sections at which the section
    changes. *)
Lemma headings_section_changes pages : ∀ previous,
  headings (index_blocks previous pages) =
  title <$> section_changes previous ((λ e, section_of e.2) <$> pages).
Proof.
  induction pages as [|entry pages IH]; intros previous; [done|].
  cbn [index_blocks fmap list_fmap section_changes].
  unfold headings in IH |- *. rewrite omap_app, fmap_app. cbn [omap list_omap].
  rewrite (IH (section_of entry.2)).
  by destruct (String.eqb (section_of entry.2) previous).
Qed.

(** A section with a heading stands in the list after the leading
    entries of the section before. *)
Lemma section_changes_subset l : ∀ previous s,
  s ∈ section_changes previous l →
  s ∈ drop_while (String.eqb previous) l.
Proof.
  induction l as [|x l IH]; intros previous s; [done|].
  cbn [section_changes drop_while]. rewrite elem_of_app.
  destruct (String.eqb_spec x previous) as [->|Hne].
  - rewrite String.eqb_refl. intros [Hin|Hin]; [by apply elem_of_nil in Hin|].
    by apply IH.
  - destruct (String.eqb_spec previous x) as [->|_]; [done|].
    intros [Hin|Hin].
    + apply list_elem_of_singleton in Hin as ->. left.
    + right. eapply drop_while_subset. by apply IH.
Qed.

Lemma section_changes_covers l : ∀ previous s,
  s ∈ drop_while (String.eqb previous) l →
  s ∈ section_changes previous l.
Proof.
  induction l as [|x l IH]; intros previous s; [done|].
  cbn [section_changes drop_while]. rewrite elem_of_app.
  destruct (String.eqb_spec previous x) as [<-|Hne].
  - rewrite String.eqb_refl. intros Hin. right. by apply IH.
  - destruct (String.eqb_spec x previous) as [->|_]; [done|].
    intros Hin. destruct (decide (s = x)) as [->|Hs]; [left; left|].
    right. apply IH. apply elem_of_cons in Hin as [->|Hin]; [done|].
    by apply drop_while_keeps.
Qed.

Lemma section_changes_NoDup l : ∀ previous,
  grouped l → NoDup (section_changes previous l).
Proof.
  induction l as [|x l IH]; intros previous; [constructor|].
  cbn [grouped section_changes]. intros [Hx Hl].
  destruct (String.eqb x previous); cbn [app]; [by apply IH|].
  apply NoDup_cons. split; [|by apply IH].
  intros Hin. by apply Hx, section_changes_subset.
Qed.

End GroupFacts.

(** X15.  The headings of the index are the titles of the sections at
    which the section changes along the catalogue.  When the catalogue
    keeps the entries of every section together and no stem begins
    with a slash, every section of the catalogue gets exactly one
    heading: no section is given twice and none is left out. *)
Theorem one_heading_per_section (pages : list (string * string)) :
  let sections := (λ e, Index.section_of e.2) <$> pages in
  Index.headings (Index.index_blocks EmptyString pages)
    = PyStr.title <$> section_changes EmptyString sections ∧
  (grouped sections → NoDup (section_changes EmptyString sections)) ∧
  (EmptyString ∉ sections →
   ∀ s, s ∈ section_changes EmptyString sections ↔ s ∈ sections).
Proof.
  intros sections. split_and!.
  - apply GroupFacts.headings_section_changes.
  - apply GroupFacts.section_changes_NoDup.
  - intros Hno s. split.
    + intros Hin. eapply GroupFacts.drop_while_subset.
      by apply GroupFacts.section_changes_subset.
    + intros Hin. apply GroupFacts.section_changes_covers.
      apply GroupFacts.drop_while_keeps; [done|].
      intros ->. by apply Hno.
Qed.

Lemma one_heading_per_section_witness :
  let sections := (λ e, Index.section_of e.2) <$> Example.abz in
  NoDup (section_changes EmptyString sections) ∧
  ("b" ∈ section_changes EmptyString sections ↔ "b" ∈ sections).
Proof.
  intros sections.
  destruct (one_heading_per_section Example.abz) as (_ & Hnodup & Hall).
  split.
  - apply Hnodup. vm_compute. repeat split; not_listed.
  - apply Hall. vm_compute. not_listed.
Defined.

(** ** More on the removal loop *)

Module LoopFacts.
Import Soup.

(** Stripping a tree in which no listed tag occurs gives it back. *)
Lemma strip_node_clean names x :
  has_tag names x = false → strip_node names x = Some x.
Proof.
  induction x as [s|nm at_ cs IH] using node_ind'; cbn; [done|].
  intros [Hnm Hcs]%orb_false_elim. apply bool_decide_eq_false in Hnm.
  rewrite decide_False by done. do 2 f_equal.
  apply omap_keep. induction IH as [|c cs Hc _ IHcs]; [constructor|].
  cbn in Hcs. apply orb_false_elim in Hcs as [Hc' Hcs'].
  constructor; [by apply Hc|by apply IHcs].
Qed.

Lemma strip_clean names doc :
  existsb (has_tag names) doc = false → strip names doc = doc.
Proof.
  intros Hdoc. apply omap_keep.
  induction doc as [|x doc IH]; [constructor|].
  cbn in Hdoc. apply orb_false_elim in Hdoc as [Hx Hdoc].
  constructor; [by apply strip_node_clean|by apply IH].
Qed.

(** Pruning keeps objects as they are and in their order. *)
Lemma prune_element_sublist names e :
  from_option objects [] (prune_element names e) `sublist_of` objects e.
Proof.
  induction e as [i s|i nm at_ cs IH] using element_ind'; cbn; [done|].
  case_decide; cbn; [apply sublist_nil_l|]. apply sublist_skip.
  induction IH as [|c cs Hc _ IHcs]; cbn; [done|].
  destruct (prune_element names c) as [c'|]; cbn in Hc |- *.
  - by apply sublist_app.
  - by apply sublist_inserts_l.
Qed.

Lemma prune_sublist names soup :
  (prune names soup ≫= objects) `sublist_of` (soup ≫= objects).
Proof.
  unfold prune. induction soup as [|e soup IH]; cbn; [done|].
  pose proof (prune_element_sublist names e) as He.
  destruct (prune_element names e) as [e'|]; cbn in He |- *.
  - by apply sublist_app.
  - by apply sublist_inserts_l.
Qed.

End LoopFacts.

(** X16.  A page in which none of the five tags occurs goes to the
    serialiser as it was parsed: the loop removes nothing else. *)
Theorem clean_page_untouched (doc : list Soup.node) :
  existsb (Soup.has_tag Soup.excluded) doc = false →
  Soup.markup <$> Soup.extract (Soup.soup_of doc) = doc.
Proof.
  intros Hclean. rewrite markup_extract. by apply LoopFacts.strip_clean.
Qed.

Lemma clean_page_untouched_witness :
  Soup.markup <$> Soup.extract
    (Soup.soup_of [Soup.Tag "h1" [] [Soup.NavigableString "Hi"];
                   Soup.Tag "navbar" [] [Soup.NavigableString "kept"]])
  = [Soup.Tag "h1" [] [Soup.NavigableString "Hi"];
     Soup.Tag "navbar" [] [Soup.NavigableString "kept"]].
Proof. apply clean_page_untouched. by vm_compute. Defined.

(** X17.  What the loop keeps, it keeps untouched and in place: the
    objects of the tree after the loop are objects of the parsed tree,
    with the same identity, name and text, in document order; the
    objects of the parsed tree split into these and those at or below
    a tag of the list. *)
Theorem kept_objects_in_order (doc : list Soup.node) :
  let soup := Soup.soup_of doc in
  (Soup.extract soup ≫= Soup.objects) `sublist_of` (soup ≫= Soup.objects) ∧
  soup ≫= Soup.objects
    ≡ₚ (Soup.extract soup ≫= Soup.objects)
         ++ (soup ≫= Soup.removed Soup.excluded).
Proof.
  intros soup. unfold soup. rewrite extract_prune by apply soup_of_NoDup.
  split; [apply LoopFacts.prune_sublist|apply objects_split].
Qed.

(** X18.  Running the removal loop a second time changes nothing: the
    first pass leaves no tag for [find_all] to return. *)
Theorem extract_twice (doc : list Soup.node) :
  Soup.find_all Soup.excluded (Soup.extract (Soup.soup_of doc)) = [] ∧
  Soup.extract (Soup.extract (Soup.soup_of doc)) = Soup.extract (Soup.soup_of doc).
Proof.
  assert (Hnone : Soup.find_all Soup.excluded (Soup.extract (Soup.soup_of doc)) = []).
  { destruct (Soup.find_all _ _) as [|j L] eqn:Hfind; [done|].
    assert (Hj : j ∈ Soup.find_all Soup.excluded (Soup.extract (Soup.soup_of doc)))
      by (rewrite Hfind; left).
    apply elem_of_find_all in Hj as (nm & Hobj & Hnm).
    pose proof (has_tag_strip Soup.excluded doc) as Hclean.
    rewrite <- markup_extract in Hclean.
    exfalso. revert Hobj Hclean.
    generalize (Soup.extract (Soup.soup_of doc)). intros soup Hobj Hclean.
    apply list_elem_of_bind in Hobj as (e & Hobj & He).
    assert (Hforest : ∀ l, e ∈ l →
              existsb (Soup.has_tag Soup.excluded) (Soup.markup <$> l) = false →
              Soup.has_tag Soup.excluded (Soup.markup e) = false).
    { clear. induction l as [|x l IH]; [by intros ?%elem_of_nil|].
      cbn. intros Hin [Hx Hl]%orb_false_elim.
      apply elem_of_cons in Hin as [->|Hin]; [done|]. by apply IH. }
    pose proof (Hforest soup He Hclean) as He'. clear Hforest Hclean He soup.
    revert Hobj He'. induction e as [i s|i n at_ cs IH] using element_ind'; cbn.
    - intros Hin. apply list_elem_of_singleton in Hin. discriminate.
    - intros Hin [Hn Hcs]%orb_false_elim.
      apply bool_decide_eq_false in Hn.
      apply elem_of_cons in Hin as [[= -> ->]|Hin]; [done|].
      apply list_elem_of_bind in Hin as (c & Hin & Hc).
      rewrite Forall_forall in IH. apply (IH c Hc Hin).
      clear -Hc Hcs. induction cs as [|x cs IHcs]; [by apply elem_of_nil in Hc|].
      cbn in Hcs. apply orb_false_elim in Hcs as [Hx Hcs].
      apply elem_of_cons in Hc as [->|Hc]; [done|]. by apply IHcs. }
  split; [exact Hnone|].
  unfold Soup.extract at 1. by rewrite Hnone.
Qed.

(** ** The directory of a page *)

Module PathFacts.

Lemma list_ascii_of_append (a b : string) :
  list_ascii_of_string (a +:+ b)
  = list_ascii_of_string a ++ list_ascii_of_string b.
Proof.
  induction a as [|c a IH]; [done|].
  change (c :: list_ascii_of_string (a +:+ b)
          = c :: (list_ascii_of_string a ++ list_ascii_of_string b)).
  by rewrite IH.
Qed.

Lemma contains_append c (a b : string) :
  PyStr.contains c (a +:+ b) = PyStr.contains c a || PyStr.contains c b.
Proof.
  induction a as [|d a IH]; [done|].
  change (Ascii.eqb d c || PyStr.contains c (a +:+ b)
          = Ascii.eqb d c || PyStr.contains c a || PyStr.contains c b).
  rewrite IH. by destruct (Ascii.eqb d c).
Qed.

Lemma drop_while_app {A} (f : A → bool) (l k : list A) :
  Forall (λ x, f x = true) l → drop_while f (l ++ k) = drop_while f k.
Proof.
  induction 1 as [|x l Hx _ IH]; [done|]. cbn [app drop_while]. by rewrite Hx.
Qed.

(** The characters of a text without a slash, in any order, are not
    slashes. *)
Lemma no_slash_rev (s : string) :
  PyStr.contains "/" s = false →
  Forall (λ c, negb (Ascii.eqb "/" c) = true) (rev (list_ascii_of_string s)).
Proof.
  intros Hs. apply Forall_forall. intros c Hc.
  apply list_elem_of_In, in_rev, list_elem_of_In in Hc.
  induction s as [|d s IH]; [by apply elem_of_nil in Hc|].
  cbn [PyStr.contains] in Hs. apply orb_false_elim in Hs as [Hd Hs].
  cbn [list_ascii_of_string] in Hc. apply elem_of_cons in Hc as [->|Hc].
  - rewrite Ascii.eqb_sym, Hd. done.
  - by apply IH.
Qed.

(** The directory of [front/tail], when [tail] has no slash and
    [front] does not end with one, is [front]. *)
Lemma dirname_front (front tail : string) (c : ascii) :
  PyStr.contains "/" tail = false → c ≠ "/"%char →
  dirname ((front +:+ String c EmptyString) +:+ String "/" tail)
  = front +:+ String c EmptyString.
Proof.
  intros Htail Hc.
  assert (Hsl : Ascii.eqb "/" c = false) by (by apply Ascii.eqb_neq).
  unfold dirname.
  rewrite list_ascii_of_append.
  change (list_ascii_of_string (String "/" tail))
    with ([ "/"%char ] ++ list_ascii_of_string tail).
  rewrite !rev_app_distr, <- (assoc_L (++)).
  rewrite drop_while_app by (by apply no_slash_rev).
  rewrite list_ascii_of_append, rev_app_distr.
  change (rev (list_ascii_of_string (String c EmptyString))) with [c].
  change (rev ["/"%char]) with ["/"%char].
  repeat first [ rewrite Ascii.eqb_refl | rewrite Hsl
               | progress cbn [app drop_while forallb negb andb] ].
  change (c :: rev (list_ascii_of_string front))
    with (rev (list_ascii_of_string (String c EmptyString))
            ++ rev (list_ascii_of_string front)).
  rewrite <- rev_app_distr, rev_involutive, <- list_ascii_of_append.
  apply string_of_list_ascii_of_string.
Qed.

End PathFacts.

(** X19.  Where a page lands.  A stem without a slash is written right
    in the output folder, which is the directory [convert_page] asks
    for.  A stem that ends with [/b], where [b] has no slash and what
    stands before is not itself ended by a slash, is written in the
    folder named by that front part, under the output folder; so the
    slashes of a stem become nested directories. *)
Theorem directory_of_page :
  (∀ s, PyStr.contains "/" s = false →
        dirname ("shipany_docs/" +:+ s +:+ ".md") = "shipany_docs") ∧
  (∀ d c b, PyStr.contains "/" b = false → c ≠ "/"%char →
            dirname ("shipany_docs/" +:+ (d +:+ String c "/" +:+ b) +:+ ".md")
            = "shipany_docs/" +:+ d +:+ String c EmptyString).
Proof.
  split.
  - intros s Hs.
    change ("shipany_docs/" +:+ s +:+ ".md")
      with (("shipany_doc" +:+ String "s" EmptyString) +:+ String "/" (s +:+ ".md")).
    rewrite PathFacts.dirname_front; [done| |done].
    by rewrite PathFacts.contains_append, Hs.
  - intros d c b Hb Hc.
    assert (("shipany_docs/" +:+ (d +:+ String c "/" +:+ b) +:+ ".md")
            = (("shipany_docs/" +:+ d) +:+ String c EmptyString)
                +:+ String "/" (b +:+ ".md")) as ->.
    { change (String c "/" +:+ b) with (String c (String "/" b)).
      by rewrite !append_assoc. }
    rewrite PathFacts.dirname_front; [|by rewrite PathFacts.contains_append, Hb|done].
    by rewrite append_assoc.
Qed.

Lemma directory_of_page_witness :
  dirname ("shipany_docs/" +:+ "get-started" +:+ ".md") = "shipany_docs" ∧
  dirname ("shipany_docs/" +:+ ("features/emai" +:+ String "l" "/" +:+ "resend") +:+ ".md")
  = "shipany_docs/" +:+ "features/emai" +:+ String "l" EmptyString.
Proof.
  destruct directory_of_page as [Hflat Hnested]. split.
  - by apply Hflat.
  - by apply Hnested.
Defined.
